(** * rhs-scraper: the fetch, extract and cache pipeline

    A shallow embedding of [src/main.go] (the scraper package used by the
    terminal UI) and of the earlier command-line variant [src/scraper.go],
    followed by the properties of the pipeline: category extraction, the
    event cap, skipping of untitled containers, the cache round trip and the
    12 hour freshness rule.

    Go strings are byte strings and are modelled by [string]; Go [int] and
    [time.Duration] values are modelled by [Z].  The operating system, the
    network, the clock and the standard streams are one explicit [World]
    that every operation threads through; [log.Fatal] ends the run. *)

From stdpp Require Import gmap strings list pretty.
From Stdlib Require Import ZArith Lia Ascii DecimalString DecimalZ.

Open Scope Z_scope.

(** ** Package [strings] *)

Module gostrings.

Definition byte (c : ascii) : N := N_of_ascii c.

(** The ASCII white space of [unicode.IsSpace]: tab, line feed, vertical
    tab, form feed, carriage return and space. *)
Definition asciiSpace (c : ascii) : bool :=
  match byte c with
  | 9 | 10 | 11 | 12 | 13 | 32 => true
  | _ => false
  end%N.

(** Two-byte white space: U+0085 (C2 85) and U+00A0 (C2 A0). *)
Definition space2 (a b : ascii) : bool :=
  match byte a, byte b with
  | 194, 133 | 194, 160 => true
  | _, _ => false
  end%N.

(** Three-byte white space: U+1680 (E1 9A 80), U+2000..U+200A
    (E2 80 80..8A), U+2028, U+2029, U+202F (E2 80 A8, A9, AF),
    U+205F (E2 81 9F) and U+3000 (E3 80 80). *)
Definition space3 (a b c : ascii) : bool :=
  match byte a, byte b, byte c with
  | 225, 154, 128 => true
  | 226, 128, n => ((128 <=? n) && (n <=? 138) || (n =? 168) || (n =? 169) || (n =? 175))%N
  | 226, 129, 159 => true
  | 227, 128, 128 => true
  | _, _, _ => false
  end%N.

(** [strings.TrimLeftFunc(s, unicode.IsSpace)]: runes are decoded from the
    front; a byte that does not start a white-space rune stops the scan. *)
Fixpoint trimLeft (s : string) : string :=
  match s with
  | EmptyString => s
  | String a r =>
      if asciiSpace a then trimLeft r else
      match r with
      | EmptyString => s
      | String b r' =>
          if space2 a b then trimLeft r' else
          match r' with
          | EmptyString => s
          | String c r'' => if space3 a b c then trimLeft r'' else s
          end
      end
  end.

(** The same scan on the reversed string: the last rune is decoded by
    walking back over continuation bytes to its lead byte. *)
Fixpoint trimLeftRev (s : string) : string :=
  match s with
  | EmptyString => s
  | String a r =>
      if asciiSpace a then trimLeftRev r else
      match r with
      | EmptyString => s
      | String b r' =>
          if space2 b a then trimLeftRev r' else
          match r' with
          | EmptyString => s
          | String c r'' => if space3 c b a then trimLeftRev r'' else s
          end
      end
  end.

Definition trimRight (s : string) : string :=
  String.rev (trimLeftRev (String.rev s)).

(** [strings.TrimSpace]: leading and trailing Unicode white space removed. *)
Definition TrimSpace (s : string) : string := trimRight (trimLeft s).

(** [strings.ToLower] on one byte.  Bytes of non-ASCII runes are left as
    they are: the only use is a comparison with an ASCII literal, and no
    rune outside [A-Z] lower-cases to a letter of that literal. *)
Definition lowerByte (c : ascii) : ascii :=
  let n := byte c in
  if ((65 <=? n) && (n <=? 90))%N then ascii_of_N (n + 32) else c.

Fixpoint ToLower (s : string) : string :=
  match s with
  | EmptyString => EmptyString
  | String c r => String (lowerByte c) (ToLower r)
  end.

(** [strings.Join(elems, sep)]. *)
Fixpoint Join (elems : list string) (sep : string) : string :=
  match elems with
  | [] => ""
  | [x] => x
  | x :: r => x +:+ sep +:+ Join r sep
  end.

(** Whether a byte occurs in a string. *)
Fixpoint occurs (c : ascii) (s : string) : bool :=
  match s with
  | EmptyString => false
  | String a r => Ascii.eqb a c || occurs c r
  end.

End gostrings.

(** ** The data model of [main.go] *)

(** [type Event struct]; every field carries a JSON tag of its own. *)
Record Event := {
  Title : string;
  Date : string;
  Location : string;
  Category : string;
  Description : string;
}.

(** [time.Time] as nanoseconds on the wall clock, [time.Duration] as a
    signed 64-bit count of nanoseconds. *)
Definition Time := Z.
Definition Duration := Z.

(** [type CachedData struct]. *)
Record CachedData := {
  LastScraped : Time;
  Events : list Event;
}.

(** ** The extractor: the body of the [OnHTML] callback of [ScrapeEvents] *)

(** One [".msl_eventlist .event_item"] element as the callback reads it:
    [e.ChildText] of the four field selectors and [el.Text] of every
    ["dd.msl_event_types a"] link, in document order. *)
Record Container := {
  event_name : string;
  event_time : string;
  event_location : string;
  event_description : string;
  event_types : list string;
}.

(** The test of the category loop: neither spam nor empty. *)
Definition keepCategory (categoryText : string) : bool :=
  negb (String.eqb (gostrings.ToLower categoryText) "free") &&
  negb (String.eqb categoryText "").

(** The [e.ForEach] loop: every link text is trimmed and appended to
    [categories] when it passes the test. *)
Definition collectCategories (links : list string) : list string :=
  foldl (fun categories el =>
           let categoryText := gostrings.TrimSpace el in
           if keepCategory categoryText then categories ++ [categoryText]
           else categories)
        [] links.

(** The category of a container: ["uncategorized"] unless the loop kept a
    label, then the labels joined by [", "]. *)
Definition categoryOf (links : list string) : string :=
  let categories := collectCategories links in
  if (0 <? Z.of_nat (length categories)) then gostrings.Join categories ", "
  else "uncategorized".

(** The record built for a container, or nothing when its trimmed title is
    empty. *)
Definition extract (e : Container) : option Event :=
  let title := gostrings.TrimSpace (event_name e) in
  if String.eqb title "" then None
  else Some {| Title := title;
               Date := gostrings.TrimSpace (event_time e);
               Location := gostrings.TrimSpace (event_location e);
               Category := categoryOf (event_types e);
               Description := gostrings.TrimSpace (event_description e) |}.

(** ** The world the program runs in *)

(** A file path as its list of components; [filepath.Join(dir, name)]
    appends one component. *)
Abbreviation path := (list string).

Module filepath.
Definition Join (dir : path) (name : string) : path := dir ++ [name].
Definition Dir (p : path) : path := removelast p.
End filepath.

(** The page behind the calendar URL as the registered selectors see it.
    [event_items] is what [main.go] selects; the other five views are the
    selectors of [scraper.go], each element paired with the title that the
    callback looks up from the element's parent (grandparent for the
    category block). *)
Record Page := {
  event_items : list Container;
  msl_event_name : list string;
  msl_event_time : list (string * string);
  msl_event_description : list (string * string);
  msl_event_location : list (string * string);
  msl_event_types : list (string * list string);
}.

(** What the collector gets for one request: the page, or a failure
    (unreachable host, status outside the accepted range) together with
    whatever part of a page had reached the callbacks by then. *)
Inductive Response :=
| Served (p : Page)
| Failed (cause : string) (partial : Page).

(** Go [error] values. *)
Inductive error :=
| errVisit (cause : string)
| errPath (op : string) (p : path)
| errJSON
| Errorf (msg : string) (cause : error).

(** What is printed on standard output: plain text, a list of events
    printed after a label, and the line that reports the humanized age of
    the cache. *)
Inductive Output :=
| OutText (text : string)
| OutEvents (label : string) (events : list Event)
| OutLastScraped (t : Z).

(** Lines written through package [log]. *)
Inductive LogLine :=
| LogEmptyTitle
| LogVisiting (url : string)
| LogErrorVisiting (url : string) (err : error)
| LogLoaded (count : nat)
| LogFatal (msg : string).

Record World := {
  user_cache_dir : option path;   (* os.UserCacheDir(): the directory, or an error *)
  dirs : gset path;               (* directories that exist *)
  files : gmap path string;       (* regular files and their bytes *)
  read_only : gset path;          (* directories and files that refuse changes *)
  disk_full : bool;               (* writes of data fail *)
  calendar : Response;            (* what the events calendar answers *)
  requests : list string;         (* URLs requested so far *)
  now : Time;                     (* time.Now() *)
  stdin : list string;            (* unread lines of standard input *)
  stdout : list Output;           (* what was printed so far *)
  logged : list LogLine;          (* lines logged so far *)
}.

Definition with_fs (ds : gset path) (fs : gmap path string) (w : World) : World :=
  {| user_cache_dir := user_cache_dir w; dirs := ds; files := fs;
     read_only := read_only w; disk_full := disk_full w;
     calendar := calendar w; requests := requests w; now := now w;
     stdin := stdin w; stdout := stdout w; logged := logged w |}.

Definition with_requests (rs : list string) (w : World) : World :=
  {| user_cache_dir := user_cache_dir w; dirs := dirs w; files := files w;
     read_only := read_only w; disk_full := disk_full w;
     calendar := calendar w; requests := rs; now := now w;
     stdin := stdin w; stdout := stdout w; logged := logged w |}.

Definition with_stdio (i : list string) (o : list Output) (w : World) : World :=
  {| user_cache_dir := user_cache_dir w; dirs := dirs w; files := files w;
     read_only := read_only w; disk_full := disk_full w;
     calendar := calendar w; requests := requests w; now := now w;
     stdin := i; stdout := o; logged := logged w |}.

Definition with_logged (ls : list LogLine) (w : World) : World :=
  {| user_cache_dir := user_cache_dir w; dirs := dirs w; files := files w;
     read_only := read_only w; disk_full := disk_full w;
     calendar := calendar w; requests := requests w; now := now w;
     stdin := stdin w; stdout := stdout w; logged := ls |}.

(** A call either returns a value in a new world or ends the process. *)
Inductive Outcome (A : Type) :=
| Return (a : A) (w : World)
| Exit (code : Z) (w : World).
Arguments Return {A} a w.
Arguments Exit {A} code w.

Definition M (A : Type) : Type := World -> Outcome A.

#[global] Instance M_ret : MRet M := fun A a w => Return a w.
#[global] Instance M_bind : MBind M := fun A B k m w =>
  match m w with
  | Return a w' => k a w'
  | Exit code w' => Exit code w'
  end.

Definition final {A} (o : Outcome A) : World :=
  match o with Return _ w => w | Exit _ w => w end.

(** The value a call returns, if it returns. *)
Definition returned {A} (o : Outcome A) : option A :=
  match o with Return a _ => Some a | Exit _ _ => None end.

(** A computation keeps an observation of the world when the observation
    is the same before and after, however the computation ends. *)
Definition keeps {X A} (f : World -> X) (m : M A) : Prop :=
  forall w, f (final (m w)) = f w.

(** *** Packages [log], [fmt], [time] and [os] *)

Definition Println (l : LogLine) : M unit :=
  fun w => Return tt (with_logged (logged w ++ [l]) w).

(** [log.Fatalf]: the line is logged and the process exits with status 1. *)
Definition Fatalf {A} (msg : string) : M A :=
  fun w => Exit 1 (with_logged (logged w ++ [LogFatal msg]) w).

Definition Print (o : list Output) : M unit :=
  fun w => Return tt (with_stdio (stdin w) (stdout w ++ o) w).

(** One [scanner.Scan()] and [scanner.Text()]: the next line of standard
    input, empty at the end of input. *)
Definition ScanText : M string :=
  fun w =>
    match stdin w with
    | [] => Return ""%string w
    | line :: rest => Return line (with_stdio rest (stdout w) w)
    end.

Definition Now : M Time := fun w => Return (now w) w.

Definition Hour : Duration := 3600000000000.
Definition minDuration : Duration := - 2 ^ 63.
Definition maxDuration : Duration := 2 ^ 63 - 1.

(** [t.Sub(u)]: the difference, saturated to the range of [Duration]. *)
Definition Sub (t u : Time) : Duration :=
  Z.max minDuration (Z.min maxDuration (t - u)).

(** [time.Since(t)] is [time.Now().Sub(t)]. *)
Definition Since (t : Time) : M Duration :=
  fun w => Return (Sub (now w) t) w.

Definition UserCacheDir : M (option path) :=
  fun w => Return (user_cache_dir w) w.

Definition exists_at (w : World) (p : path) : bool :=
  bool_decide (p ∈ dirs w) || bool_decide (is_Some (files w !! p)).

(** Whether a component of the path before the last is a regular file:
    the path cannot be walked, and [os.Stat] fails with ENOTDIR. *)
Definition blocked_by_file (w : World) (p : path) : bool :=
  existsb (fun n => bool_decide (is_Some (files w !! take n p))) (seq 0 (length p)).

(** [os.Stat] followed by [os.IsNotExist] on its error.  The answer is
    true only for ENOENT: the path is not there and nothing but missing
    components stands in the way.  It is false when [os.Stat] succeeds, and
    false as well when [os.Stat] fails for another reason, as it does with
    ENOTDIR when a component of the path is a regular file. *)
Definition StatIsNotExist (p : path) : M bool :=
  fun w => Return (negb (exists_at w p) && negb (blocked_by_file w p)) w.

(** When [os.Mkdir] succeeds: the path is free and its parent is a writable
    directory. *)
Definition can_mkdir (w : World) (p : path) : bool :=
  negb (exists_at w p) && bool_decide (filepath.Dir p ∈ dirs w)
  && negb (bool_decide (filepath.Dir p ∈ read_only w)).

(** [os.Mkdir]; the result is the error, if any. *)
Definition Mkdir (p : path) : M (option error) :=
  fun w =>
    if can_mkdir w p
    then Return None (with_fs ({[ p ]} ∪ dirs w) (files w) w)
    else Return (Some (errPath "mkdir" p)) w.

(** When [os.Create] succeeds: the path is not a directory, its parent is
    one, and the file (when it exists) or else the parent is writable. *)
Definition can_create (w : World) (p : path) : bool :=
  negb (bool_decide (p ∈ dirs w)) && bool_decide (filepath.Dir p ∈ dirs w)
  && negb (bool_decide ((if bool_decide (is_Some (files w !! p))
                         then p else filepath.Dir p) ∈ read_only w)).

(** [os.Create]: an existing file is truncated, a new one starts empty. *)
Definition Create (p : path) : M (option error) :=
  fun w =>
    if can_create w p
    then Return None (with_fs (dirs w) (<[ p := ""%string ]> (files w)) w)
    else Return (Some (errPath "open" p)) w.

(** Writing the bytes of a freshly created file. *)
Definition Write (p : path) (data : string) : M (option error) :=
  fun w =>
    if disk_full w then Return (Some (errPath "write" p)) w
    else Return None (with_fs (dirs w) (<[ p := data ]> (files w)) w).

(** What [os.Open] hands back: the bytes of a regular file, or a directory
    handle from which nothing can be read. *)
Inductive File :=
| Regular (content : string)
| Directory.

Definition Open (p : path) : M (option File) :=
  fun w =>
    Return (match files w !! p with
            | Some content => Some (Regular content)
            | None => if bool_decide (p ∈ dirs w) then Some Directory else None
            end) w.

(** *** Package [encoding/json] *)

(** The encoder and the decoder for [CachedData], as functions between
    values and the bytes of the file.  Both can fail. *)
Class json := {
  Marshal : CachedData -> option string;
  Unmarshal : string -> option CachedData;
}.

(** The events written by the encoder are the events the decoder reads
    back. *)
Class json_faithful `{json} :=
  unmarshal_marshal : forall d data,
    Marshal d = Some data ->
    exists t, Unmarshal data = Some {| LastScraped := t; Events := Events d |}.

(** [json.NewEncoder(file).Encode(v)]. *)
Definition Encode `{json} (p : path) (v : CachedData) : M (option error) :=
  match Marshal v with
  | None => mret (Some errJSON)
  | Some data => Write p data
  end.

(** [json.NewDecoder(file).Decode(&v)]. *)
Definition Decode `{json} (file : File) : option CachedData :=
  match file with
  | Regular content => Unmarshal content
  | Directory => None
  end.

(** ** [main.go] *)

Definition calendarURL : string := "https://su.rhul.ac.uk/events/calendar/".

(** The bounds applied to the requested number of events. *)
Definition clampNumEvents (numEvents : Z) : Z :=
  if numEvents <? 2 then 2
  else if 25 <? numEvents then 25
  else numEvents.

(** The variables the [OnHTML] closure of [ScrapeEvents] captures, the
    abort flag of the request and the lines the closure logs. *)
Record Scrape := {
  events : list Event;
  eventCount : Z;
  aborted : bool;
  warnings : list LogLine;
}.

Definition newScrape : Scrape :=
  {| events := []; eventCount := 0; aborted := false; warnings := [] |}.

(** The [OnHTML] callback for one event container. *)
Definition onEventItem (numEvents : Z) (s : Scrape) (e : Container) : Scrape :=
  if numEvents <=? eventCount s then
    {| events := events s; eventCount := eventCount s;
       aborted := true; warnings := warnings s |}
  else
    match extract e with
    | None =>
        {| events := events s; eventCount := eventCount s;
           aborted := aborted s; warnings := warnings s ++ [LogEmptyTitle] |}
    | Some event =>
        {| events := events s ++ [event]; eventCount := eventCount s + 1;
           aborted := aborted s; warnings := warnings s |}
    end.

(** The collector calls the callback on every container, in document
    order. *)
Definition traverse (numEvents : Z) (items : list Container) : Scrape :=
  foldl (onEventItem numEvents) newScrape items.

(** The world after a request: the URL is recorded and logged by
    [OnRequest], then come the lines logged while the answer is handled. *)
Definition visited (url : string) (lines : list LogLine) (w : World) : World :=
  with_logged (logged w ++ LogVisiting url :: lines)
              (with_requests (requests w ++ [url]) w).

(** [c.Visit(url)] with the handlers [ScrapeEvents] registers: [OnRequest]
    logs the URL, [OnHTML] runs on every container in document order,
    [OnError] logs a failure, which [Visit] returns. *)
Definition Visit (url : string) (numEvents : Z) : M (Scrape * option error) :=
  fun w =>
    match calendar w with
    | Served p =>
        let s := traverse numEvents (event_items p) in
        Return (s, None) (visited url (warnings s) w)
    | Failed cause p =>
        let s := traverse numEvents (event_items p) in
        let err := errVisit cause in
        Return (s, Some err) (visited url (warnings s ++ [LogErrorVisiting url err]) w)
    end.

(** [getCacheDir]: the application's directory under the user cache
    directory, created when [os.Stat] reports it missing; a user cache
    directory that cannot be determined and a failing [os.Mkdir] are fatal.
    Any other failure of [os.Stat] goes unnoticed and the path is returned
    as it is. *)
Definition getCacheDir : M path :=
  cacheDir ← UserCacheDir;
  match cacheDir with
  | None => Fatalf "!!error getting user cache directory"
  | Some cacheDir =>
      let appCacheDir := filepath.Join cacheDir "rhs-scraper" in
      missing ← StatIsNotExist appCacheDir;
      if (missing : bool) then
        err ← Mkdir appCacheDir;
        match err with
        | Some _ => Fatalf "!!!error creating cache directory"
        | None => mret appCacheDir
        end
      else mret appCacheDir
  end.

Section with_json.
Context `{json}.

(** [saveToCache]. *)
Definition saveToCache (events : list Event) : M (option error) :=
  t ← Now;
  let cachedData := {| LastScraped := t; Events := events |} in
  cacheDir ← getCacheDir;
  let jsonFilePath := filepath.Join cacheDir "events.json" in
  err ← Create jsonFilePath;
  match err with
  | Some err => mret (Some (Errorf "failed to create cache file" err))
  | None =>
      err ← Encode jsonFilePath cachedData;
      match err with
      | Some err => mret (Some (Errorf "failed to encode events to JSON" err))
      | None => mret None
      end
  end.

(** [ScrapeEvents]. *)
Definition ScrapeEvents (numEvents : Z) : M (list Event * option error) :=
  let numEvents := clampNumEvents numEvents in
  '(s, err) ← Visit calendarURL numEvents;
  match err with
  | Some err => mret ([], Some (Errorf "failed to visit events page" err))
  | None =>
      err ← saveToCache (events s);
      match err with
      | Some err => mret ([], Some (Errorf "failed to save events to cache" err))
      | None => mret (events s, None)
      end
  end.

(** [ShouldScrape]. *)
Definition ShouldScrape : M bool :=
  cacheDir ← getCacheDir;
  let jsonFilePath := filepath.Join cacheDir "events.json" in
  file ← Open jsonFilePath;
  match file with
  | None => mret true
  | Some file =>
      match Decode file with
      | None => mret true
      | Some cachedData =>
          let timeLimit : Duration := 12 in
          elapsed ← Since (LastScraped cachedData);
          if elapsed <? timeLimit * Hour then mret false
          else mret true
      end
  end.

(** [LoadCachedEvents]. *)
Definition LoadCachedEvents : M (list Event * option error) :=
  cacheDir ← getCacheDir;
  let jsonFilePath := filepath.Join cacheDir "events.json" in
  file ← Open jsonFilePath;
  match file with
  | None => mret ([], Some (Errorf "!error opening cache file" (errPath "open" jsonFilePath)))
  | Some file =>
      match Decode file with
      | None => mret ([], Some (Errorf "!error decoding cache file" errJSON))
      | Some cachedData =>
          _ ← Println (LogLoaded (length (Events cachedData)));
          mret (Events cachedData, None)
      end
  end.

(** [printer]: six lines per event. *)
Definition printEvent (event : Event) : list Output :=
  [ OutText ("Title: " +:+ Title event);
    OutText ("Date: " +:+ Date event);
    OutText ("Location: " +:+ Location event);
    OutText ("Category: " +:+ Category event);
    OutText ("Description: " +:+ Description event);
    OutText "" ].

Definition printer (events : list Event) : M unit :=
  Print (List.concat (List.map printEvent events)).

(** [main]: scrape ten events when the cache is stale, otherwise load the
    cache; print what was obtained; an error is fatal. *)
Definition main : M unit :=
  shouldScrape ← ShouldScrape;
  if (shouldScrape : bool) then
    '(events, err) ← ScrapeEvents 10;
    _ ← printer events;
    match err with
    | Some _ => Fatalf "failed to scrape events"
    | None => mret tt
    end
  else
    '(events, err) ← LoadCachedEvents;
    _ ← printer events;
    match err with
    | Some _ => Fatalf "failed to load cached events"
    | None => mret tt
    end.

End with_json.

(** ** [scraper.go]: the command-line variant *)

Module Cli.

(** The variables shared by the callbacks of [scrapeEvents] and what
    they print. *)
Record Scrape := {
  eventsMap : gmap string Event;
  events : list Event;
  eventCount : Z;
  printed : list Output;
}.

Definition newScrape : Scrape :=
  {| eventsMap := ∅; events := []; eventCount := 0; printed := [] |}.

Definition update (m : gmap string Event) (o : list Output) (s : Scrape) : Scrape :=
  {| eventsMap := m; events := events s; eventCount := eventCount s;
     printed := printed s ++ o |}.

Definition zeroEvent : Event :=
  {| Title := ""; Date := ""; Location := ""; Category := ""; Description := "" |}.

Definition setTitle (v : string) (e : Event) : Event :=
  {| Title := v; Date := Date e; Location := Location e;
     Category := Category e; Description := Description e |}.
Definition setDate (v : string) (e : Event) : Event :=
  {| Title := Title e; Date := v; Location := Location e;
     Category := Category e; Description := Description e |}.
Definition setLocation (v : string) (e : Event) : Event :=
  {| Title := Title e; Date := Date e; Location := v;
     Category := Category e; Description := Description e |}.
Definition setCategory (v : string) (e : Event) : Event :=
  {| Title := Title e; Date := Date e; Location := Location e;
     Category := v; Description := Description e |}.
Definition setDescription (v : string) (e : Event) : Event :=
  {| Title := Title e; Date := Date e; Location := Location e;
     Category := Category e; Description := v |}.

(** [OnHTML(".msl_event_name")]: the entry for the title is created when
    missing and its title set. *)
Definition onName (numEvents : Z) (s : Scrape) (title : string) : Scrape :=
  if numEvents <=? eventCount s then s
  else
    let event := default zeroEvent (eventsMap s !! title) in
    update (<[ title := setTitle title event ]> (eventsMap s))
           [OutText ("Event title: " +:+ title)] s.

(** The three callbacks that fill one field of the entry found under the
    title read from the parent element. *)
Definition onField (set : string -> Event -> Event) (label : string)
    (numEvents : Z) (s : Scrape) (el : string * string) : Scrape :=
  if numEvents <=? eventCount s then s
  else
    match eventsMap s !! el.1 with
    | Some event =>
        update (<[ el.1 := set el.2 event ]> (eventsMap s))
               [OutText (label +:+ el.2)] s
    | None => s
    end.

(** The loop over the links of a category block: ["Free"] and ["free"]
    are skipped, every other text is assigned in turn. *)
Definition onLink (acc : Event * bool * list Output) (categoryText : string)
    : Event * bool * list Output :=
  let '(event, validCategoryFound, out) := acc in
  if String.eqb categoryText "Free" || String.eqb categoryText "free" then acc
  else (setCategory categoryText event, true,
        out ++ [OutText ("Event category: " +:+ categoryText)]).

(** [OnHTML(".msl_event_types")]. *)
Definition onTypes (numEvents : Z) (s : Scrape) (el : string * list string) : Scrape :=
  if numEvents <=? eventCount s then s
  else
    match eventsMap s !! el.1 with
    | Some event =>
        let '(event, validCategoryFound, out) := foldl onLink (event, false, []) el.2 in
        if (validCategoryFound : bool) then
          update (<[ el.1 := event ]> (eventsMap s)) out s
        else
          update (<[ el.1 := setCategory "Uncategorized" event ]> (eventsMap s))
                 (out ++ [OutText "No valid category found, assigning 'Uncategorized'"]) s
    | None =>
        update (eventsMap s) [OutText "Warning: Category found but no matching event title!"] s
    end.

(** The handlers in the order of their registration, each over all of its
    elements. *)
Definition onHTML (numEvents : Z) (p : Page) (s : Scrape) : Scrape :=
  let s := foldl (onName numEvents) s (msl_event_name p) in
  let s := foldl (onField setDate "Event date: " numEvents) s (msl_event_time p) in
  let s := foldl (onField setDescription "Event description: " numEvents) s
                 (msl_event_description p) in
  let s := foldl (onField setLocation "Event location: " numEvents) s
                 (msl_event_location p) in
  foldl (onTypes numEvents) s (msl_event_types p).

(** The loop of [OnScraped] over the entries of the map.  A [break]
    leaves every later entry out. *)
Definition collect (numEvents : Z) (s : Scrape) (entry : string * Event) : Scrape :=
  if numEvents <=? eventCount s then s
  else {| eventsMap := eventsMap s; events := events s ++ [entry.2];
          eventCount := eventCount s + 1; printed := printed s |}.

Definition getCacheDir : M path :=
  cacheDir ← UserCacheDir;
  match cacheDir with
  | None => Fatalf "Error getting cache directory:"
  | Some cacheDir =>
      let appCacheDir := filepath.Join cacheDir "rhs-scraper" in
      missing ← StatIsNotExist appCacheDir;
      if (missing : bool) then
        err ← Mkdir appCacheDir;
        match err with
        | Some _ => Fatalf "Error creating cache directory:"
        | None => mret appCacheDir
        end
      else mret appCacheDir
  end.

Section with_json.
Context `{json}.
(** The order in which [range] visits a map; Go leaves it unspecified. *)
Variable range : gmap string Event -> list (string * Event).

Definition collectAll (numEvents : Z) (s : Scrape) : Scrape :=
  foldl (collect numEvents) s (range (eventsMap s)).

(** The [OnScraped] callback: collect, stamp, save; a file that cannot
    be created or written is fatal. *)
Definition onScraped (numEvents : Z) (s : Scrape) : M unit :=
  let s := collectAll numEvents s in
  t ← Now;
  let cachedData := {| LastScraped := t; Events := events s |} in
  _ ← Print (printed s ++ [OutEvents "Found events: " (events s)]);
  cacheDir ← getCacheDir;
  let jsonFilePath := filepath.Join cacheDir "events.json" in
  err ← Create jsonFilePath;
  match err with
  | Some _ => Fatalf "open"
  | None =>
      err ← Encode jsonFilePath cachedData;
      match err with
      | Some _ => Fatalf "!!! Error encoding events to JSON: "
      | None => Print [OutText "Events saved to events.json"]
      end
  end.

(** [scrapeEvents]: one visit of the calendar; the error [Visit]
    returns is dropped. *)
Definition scrapeEvents (numEvents : Z) : M unit :=
  fun w =>
    let w1 := with_requests (requests w ++ [calendarURL]) w in
    let w2 := with_stdio (stdin w1)
                (stdout w1 ++ [OutText ("Visiting right now... " +:+ calendarURL)]) w1 in
    match calendar w with
    | Served p => onScraped numEvents (onHTML numEvents p newScrape) w2
    | Failed _ p =>
        Print (printed (onHTML numEvents p newScrape)) w2
    end.

(** [shouldScrape]. *)
Definition shouldScrape : M bool :=
  cacheDir ← getCacheDir;
  let jsonFilePath := filepath.Join cacheDir "events.json" in
  file ← Open jsonFilePath;
  match file with
  | None =>
      _ ← Print [OutText "No recent data found, scraping..."];
      mret true
  | Some file =>
      match Decode file with
      | None =>
          _ ← Print [OutText "Error reading cache, scraping..."];
          mret true
      | Some cachedData =>
          elapsed ← Since (LastScraped cachedData);
          if elapsed <? 12 * Hour then
            _ ← Print [OutLastScraped (LastScraped cachedData)];
            mret false
          else mret true
      end
  end.

(** [loadCachedEvents]: prints the cached events; a cache that cannot
    be opened or decoded is fatal. *)
Definition loadCachedEvents : M unit :=
  cacheDir ← getCacheDir;
  let jsonFilePath := filepath.Join cacheDir "events.json" in
  file ← Open jsonFilePath;
  match file with
  | None => Fatalf "Error loading cache:"
  | Some file =>
      match Decode file with
      | None => Fatalf "Error decoding cache:"
      | Some cachedData =>
          Print [OutEvents "Loaded cached events:" (Events cachedData)]
      end
  end.

(** [main] with the parsed flags [-f] and [-n].  [||] evaluates
    [shouldScrape()] only when the flag is off. *)
Definition main (forceScrape : bool) (numEvents : Z) : M unit :=
  let numEvents := clampNumEvents numEvents in
  stale ← (if forceScrape then mret true else shouldScrape);
  if (stale : bool) then
    _ ← Print [OutText "Scraping..."];
    scrapeEvents numEvents
  else
    _ ← Print [OutText "Recent data found.";
               OutText "Do you want to force scrape? (y/n): "];
    text ← ScanText;
    let response := gostrings.ToLower text in
    if String.eqb response "y" then scrapeEvents numEvents
    else
      _ ← Print [OutText "Using cached data."];
      loadCachedEvents.

End with_json.

End Cli.

(** ** A concrete codec for the cache file

    An executable instance of the [json] interface, used to run the model
    on concrete files.  It writes the object layout of the cache file
    ([last_scraped], then [events] with the five tagged fields of each
    event) and reads it back through a tokenizer that accepts white space
    between tokens.  The time stamp is written as a decimal count of
    nanoseconds; only the quote and the backslash are escaped. *)

Module jsonref.

Inductive token :=
| LBrace | RBrace | LBracket | RBracket | Colon | Comma
| Str (s : string).

Definition dquote : ascii := "034"%char.
Definition backslash : ascii := "092"%char.

Definition special (c : ascii) : bool :=
  Ascii.eqb c dquote || Ascii.eqb c backslash.

Fixpoint escape (s : string) : string :=
  match s with
  | EmptyString => EmptyString
  | String c r =>
      if special c then String backslash (String c (escape r))
      else String c (escape r)
  end.

Definition print_token (t : token) : string :=
  match t with
  | LBrace => "{" | RBrace => "}" | LBracket => "[" | RBracket => "]"
  | Colon => ":" | Comma => ","
  | Str s => String dquote (escape s +:+ String dquote EmptyString)
  end.

Fixpoint print (ts : list token) : string :=
  match ts with
  | [] => EmptyString
  | t :: r => print_token t +:+ print r
  end.

Definition punct (c : ascii) : option token :=
  match gostrings.byte c with
  | 123 => Some LBrace | 125 => Some RBrace
  | 91 => Some LBracket | 93 => Some RBracket
  | 58 => Some Colon | 44 => Some Comma
  | _ => None
  end%N.

Definition blank (c : ascii) : bool :=
  match gostrings.byte c with
  | 9 | 10 | 13 | 32 => true
  | _ => false
  end%N.

(** The tokenizer is outside a string, inside one (with the bytes read so
    far), or just after a backslash. *)
Inductive lexstate :=
| Outside
| Inside (acc : string)
| Escaped (acc : string).

Definition snoc (acc : string) (c : ascii) : string :=
  acc +:+ String c EmptyString.

Fixpoint lex (st : lexstate) (s : string) : option (list token) :=
  match s with
  | EmptyString => match st with Outside => Some [] | _ => None end
  | String c r =>
      match st with
      | Outside =>
          if Ascii.eqb c dquote then lex (Inside EmptyString) r
          else if blank c then lex Outside r
          else match punct c with
               | Some t => cons t <$> lex Outside r
               | None => None
               end
      | Inside acc =>
          if Ascii.eqb c dquote then cons (Str acc) <$> lex Outside r
          else if Ascii.eqb c backslash then lex (Escaped acc) r
          else lex (Inside (snoc acc c)) r
      | Escaped acc =>
          if special c then lex (Inside (snoc acc c)) r else None
      end
  end.

Definition event_tokens (e : Event) : list token :=
  [ LBrace; Str "title"; Colon; Str (Title e); Comma;
    Str "date"; Colon; Str (Date e); Comma;
    Str "location"; Colon; Str (Location e); Comma;
    Str "category"; Colon; Str (Category e); Comma;
    Str "description"; Colon; Str (Description e); RBrace ].

Fixpoint events_tokens (l : list Event) : list token :=
  match l with
  | [] => [RBracket]
  | [e] => event_tokens e ++ [RBracket]
  | e :: r => event_tokens e ++ Comma :: events_tokens r
  end.

Definition digits (t : Z) : string := NilZero.string_of_int (Z.to_int t).
Definition number (s : string) : option Z := Z.of_int <$> NilZero.int_of_string s.

Definition data_tokens (d : CachedData) : list token :=
  [ LBrace; Str "last_scraped"; Colon; Str (digits (LastScraped d)); Comma;
    Str "events"; Colon; LBracket ] ++ events_tokens (Events d) ++ [RBrace].

Definition keys_ok (k1 k2 k3 k4 k5 : string) : bool :=
  String.eqb k1 "title" && String.eqb k2 "date" && String.eqb k3 "location"
  && String.eqb k4 "category" && String.eqb k5 "description".

(** One or more events separated by commas, up to the closing bracket. *)
Fixpoint parse_events (ts : list token) : option (list Event * list token) :=
  match ts with
  | LBrace :: Str k1 :: Colon :: Str v1 :: Comma
      :: Str k2 :: Colon :: Str v2 :: Comma
      :: Str k3 :: Colon :: Str v3 :: Comma
      :: Str k4 :: Colon :: Str v4 :: Comma
      :: Str k5 :: Colon :: Str v5 :: RBrace :: rest =>
      if keys_ok k1 k2 k3 k4 k5 then
        let e := {| Title := v1; Date := v2; Location := v3;
                    Category := v4; Description := v5 |} in
        match rest with
        | RBracket :: rest' => Some ([e], rest')
        | Comma :: rest' =>
            match parse_events rest' with
            | Some (l, rest'') => Some (e :: l, rest'')
            | None => None
            end
        | _ => None
        end
      else None
  | _ => None
  end.

Definition parse_list (ts : list token) : option (list Event * list token) :=
  match ts with
  | RBracket :: rest => Some ([], rest)
  | _ => parse_events ts
  end.

Definition parse_data (ts : list token) : option CachedData :=
  match ts with
  | LBrace :: Str k1 :: Colon :: Str stamp :: Comma
      :: Str k2 :: Colon :: LBracket :: rest =>
      if String.eqb k1 "last_scraped" && String.eqb k2 "events" then
        match number stamp, parse_list rest with
        | Some t, Some (l, [RBrace]) => Some {| LastScraped := t; Events := l |}
        | _, _ => None
        end
      else None
  | _ => None
  end.

Definition marshal (d : CachedData) : option string :=
  Some (print (data_tokens d)).

Definition unmarshal (data : string) : option CachedData :=
  match lex Outside data with
  | Some ts => parse_data ts
  | None => None
  end.

#[global] Instance codec : json := {| Marshal := marshal; Unmarshal := unmarshal |}.

End jsonref.

(** ** Sample pages and worlds *)

Module sample.

Definition root : path := ["home"; "student"; ".cache"]%string.
Definition app : path := filepath.Join root "rhs-scraper".
Definition cache : path := filepath.Join app "events.json".

Definition quiz : Container :=
  {| event_name := " Quiz Night "; event_time := "Mon 7pm";
     event_location := "Medicine"; event_description := "Weekly quiz";
     event_types := ["Free"; " Music "; "FREE"; "Social"] |}%string.

Definition untitled : Container :=
  {| event_name := "   "; event_time := "Tue 1pm";
     event_location := "Founders"; event_description := "";
     event_types := ["Sport"] |}%string.

Definition market : Container :=
  {| event_name := "Market"; event_time := "Wed 10am";
     event_location := "Union Plaza"; event_description := "Stalls";
     event_types := ["free"; ""] |}%string.

Definition film : Container :=
  {| event_name := "Film Club"; event_time := "Thu 8pm";
     event_location := "Windsor"; event_description := "Classics";
     event_types := ["Freestyle"] |}%string.

Definition page : Page :=
  {| event_items := [quiz; untitled; market; film];
     msl_event_name := ["Quiz Night"; "Market"; "Film Club"];
     msl_event_time := [("Quiz Night", "Mon 7pm"); ("Market", "Wed 10am")];
     msl_event_description := [("Quiz Night", "Weekly quiz")];
     msl_event_location := [("Quiz Night", "Medicine"); ("Nowhere", "Lost")];
     msl_event_types := [("Quiz Night", ["Free"; "Music"]); ("Market", ["free"])] |}%string.

Definition quizEvent : Event :=
  {| Title := "Quiz Night"; Date := "Mon 7pm"; Location := "Medicine";
     Category := "Music, Social"; Description := "Weekly quiz" |}.

Definition marketEvent : Event :=
  {| Title := "Market"; Date := "Wed 10am"; Location := "Union Plaza";
     Category := "uncategorized"; Description := "Stalls" |}.

Definition filmEvent : Event :=
  {| Title := "Film Club"; Date := "Thu 8pm"; Location := "Windsor";
     Category := "Freestyle"; Description := "Classics" |}.

(** A noon on the wall clock, in nanoseconds. *)
Definition noon : Time := 1700000000000000000.

(** The cache file as written at time [t]. *)
Definition saved (t : Time) : string :=
  jsonref.print (jsonref.data_tokens {| LastScraped := t; Events := [quizEvent; marketEvent] |}).

Definition world (ds : list path) (fs : list (path * string)) (ro : list path)
    (full : bool) (answer : Response) (input : list string) : World :=
  {| user_cache_dir := Some root; dirs := list_to_set ds; files := list_to_map fs;
     read_only := list_to_set ro; disk_full := full; calendar := answer;
     requests := []; now := noon; stdin := input; stdout := []; logged := [] |}.

(** The order in which [range] visits a map in the sample runs. *)
Definition range (m : gmap string Event) : list (string * Event) := map_to_list m.

(** First run: the user cache directory exists, nothing else. *)
Definition first_run : World := world [root] [] [] false (Served page) [].

(** A cache written at time [t]. *)
Definition cached (t : Time) (input : list string) : World :=
  world [root; app] [(cache, saved t)] [] false (Served page) input.


(** The calendar cannot be reached; part of a page had come through. *)
Definition offline : World :=
  world [root; app] [(cache, saved (noon - 13 * Hour))] [] false
        (Failed "connection refused" page) [].

(** The application directory is there but read-only. *)
Definition locked_dir : World := world [root; app] [] [app] false (Served page) [].

(** No room left for the data. *)
Definition full_disk : World := world [root; app] [] [] true (Served page) [].

(** The user cache directory is read-only and the application directory
    is missing. *)
Definition no_mkdir : World := world [root] [] [root] false (Served page) [].

(** No user cache directory can be determined. *)
Definition no_home : World :=
  {| user_cache_dir := None; dirs := ∅; files := ∅; read_only := ∅;
     disk_full := false; calendar := Served page; requests := []; now := noon;
     stdin := []; stdout := []; logged := [] |}.

End sample.

(** ** The clock, and a codec that keeps the time stamp *)

(** The same world at another time. *)
Definition with_now (t : Time) (w : World) : World :=
  {| user_cache_dir := user_cache_dir w; dirs := dirs w; files := files w;
     read_only := read_only w; disk_full := disk_full w;
     calendar := calendar w; requests := requests w; now := t;
     stdin := stdin w; stdout := stdout w; logged := logged w |}.

(** The decoder reads back the whole value the encoder wrote, the instant
    of the time stamp included. *)
Class json_lossless `{json} :=
  unmarshal_marshal_all : forall d data, Marshal d = Some data -> Unmarshal data = Some d.

(** ** [tui/app.go]: the terminal UI that calls the scraper

    The UI imports the package [scraper] and calls its [ShouldScrape],
    [ScrapeEvents] and [LoadCachedEvents].  In the repository the functions
    of these names are those of [main.go], modelled above; the model of the
    UI calls these. *)

Module tui.

Definition nl : string := String "010"%char EmptyString.

Definition stateMenu : string := "menu".
Definition stateScraping : string := "scraping".
Definition stateViewing : string := "viewing".
Definition stateOptions : string := "options".
Definition stateForceScrape : string := "forceScrape".
Definition stateLoadingCache : string := "loadingCache".

(** [type model struct]. *)
Record model := {
  state : string;
  events : list Event;
  scrapeError : option error;
}.

(** The messages [Update] tells apart: the two message types of the
    package, a key press by the text of the key, a string, and anything
    else (the quit message among them). *)
Inductive Msg :=
| ScrapeSuccessMsg (Events : list Event)
| ScrapeErrorMsg (Err : error)
| KeyMsg (key : string)
| StringMsg (text : string)
| QuitMsg.

(** [tea.Cmd]: a function that does some work and returns a message. *)
Definition Cmd : Type := M Msg.

(** [tea.Quit]. *)
Definition Quit : Cmd := mret QuitMsg.

Definition InitialModel : model :=
  {| state := stateMenu; events := []; scrapeError := None |}.

Definition setState (s : string) (m : model) : model :=
  {| state := s; events := events m; scrapeError := scrapeError m |}.

(** The text of an error, as ["%v"] prints it: [fmt.Errorf] puts its
    message before the text of the error it wraps.  The texts of the errors
    that come from the libraries are theirs; the model keeps what identifies
    the error. *)
Fixpoint Error (err : error) : string :=
  match err with
  | errVisit cause => cause
  | errPath op p => op +:+ " " +:+ gostrings.Join p "/"
  | errJSON => "json"
  | Errorf msg cause => msg +:+ ": " +:+ Error cause
  end.

Definition viewMainMenu : string :=
  gostrings.Join [""; "RHUL Events Tracker"; ""; "1. Run Scraper";
                  "2. View Current Data"; "3. Options"; "4. Exit"; "";
                  "Choose an option: "]%string nl.

Definition viewOptionsMenu : string :=
  gostrings.Join [""; "Options Menu:"; ""; "1. Set Number of Events to Scrape";
                  "2. Set Cache Expiry Time (Min 1 hour)"; "3. [Future Option]";
                  "4. Back to Main Menu (q)"; ""; "Choose an option: "]%string nl.

(** The block [viewEvents] writes for the event at index [i]. *)
Definition eventBlock (i : nat) (event : Event) : string :=
  "Event " +:+ pretty (i + 1)%nat +:+ nl
  +:+ "Title: " +:+ Title event +:+ nl
  +:+ "Date: " +:+ Date event +:+ nl
  +:+ "Location: " +:+ Location event +:+ nl
  +:+ "Category: " +:+ Category event +:+ nl
  +:+ "Description: " +:+ Description event +:+ nl +:+ nl.

(** The loop of [viewEvents]: [output] grows by one block per event. *)
Fixpoint eventBlocks (i : nat) (events : list Event) (output : string) : string :=
  match events with
  | [] => output
  | event :: rest => eventBlocks (S i) rest (output +:+ eventBlock i event)
  end.

(** [viewEvents]: the text for the list, after a line on standard output
    when there is something to show. *)
Definition viewEvents (events : list Event) : M string :=
  if (length events =? 0)%nat then mret ("No events found..." +:+ nl)
  else
    let output := eventBlocks 0 events "" in
    _ ← Print [OutText ("scraped " +:+ pretty (length events) +:+ " events")];
    mret output.

(** [View]. *)
Definition View (m : model) : M string :=
  if String.eqb (state m) stateMenu then mret viewMainMenu
  else if String.eqb (state m) stateScraping then
    mret ("Scraping data... Please wait." +:+ nl +:+ "Press 'q' to cancel." +:+ nl)
  else if String.eqb (state m) stateLoadingCache then
    mret ("Loading cached events... Please wait." +:+ nl +:+ "Press 'q' to cancel." +:+ nl)
  else if String.eqb (state m) stateViewing then viewEvents (events m)
  else if String.eqb (state m) stateOptions then mret viewOptionsMenu
  else
    match scrapeError m with
    | Some err =>
        mret ("Error: " +:+ Error err +:+ nl +:+ "Press 'q' to return to the menu.")
    | None => mret ""%string
    end.

Section with_json.
Context `{json}.

(** [scrapeEventsCmd]. *)
Definition scrapeEventsCmd (numEvents : Z) : Cmd :=
  '(events, err) ← ScrapeEvents numEvents;
  match err with
  | Some err => mret (ScrapeErrorMsg err)
  | None =>
      _ ← Print [OutText ("scraped " +:+ pretty (length events) +:+ " events")];
      mret (ScrapeSuccessMsg events)
  end.

(** [loadCachedEventsCmd]. *)
Definition loadCachedEventsCmd : Cmd :=
  '(events, err) ← LoadCachedEvents;
  match err with
  | Some err => mret (ScrapeErrorMsg err)
  | None =>
      _ ← Print [OutText ("scraped " +:+ pretty (length events) +:+ " events")];
      mret (ScrapeSuccessMsg events)
  end.

(** [Update]: the new model and the command to run, if any. *)
Definition Update (msg : Msg) (m : model) : M (model * option Cmd) :=
  match msg with
  | ScrapeSuccessMsg Events =>
      let m := {| state := stateViewing; events := Events; scrapeError := None |} in
      _ ← Print [OutText ("Loaded " +:+ pretty (length (events m)) +:+ " events into TUI")];
      mret (m, None)
  | ScrapeErrorMsg Err =>
      mret ({| state := stateMenu; events := events m; scrapeError := Some Err |}, None)
  | KeyMsg key =>
      if String.eqb key "ctrl+c" || String.eqb key "ctrl+d" then mret (m, Some Quit)
      else if String.eqb key "q" then mret (setState stateMenu m, None)
      else if String.eqb key "1" then
        shouldScrape ← ShouldScrape;
        if (shouldScrape : bool)
        then mret (setState stateScraping m, Some (scrapeEventsCmd 10))
        else mret (setState stateLoadingCache m, Some loadCachedEventsCmd)
      else if String.eqb key "2" then
        mret (setState stateLoadingCache m, Some loadCachedEventsCmd)
      else if String.eqb key "3" then mret (setState stateOptions m, None)
      else if String.eqb key "4" then mret (m, Some Quit)
      else mret (m, None)
  | StringMsg text =>
      if String.eqb text "done_scraping" || String.eqb text "done_viewing"
      then mret (setState stateViewing m, None)
      else mret (m, None)
  | QuitMsg => mret (m, None)
  end.

(** The models the program can be in: the initial one and what [Update]
    makes of a model it can be in, for any message in any world. *)
Inductive reachable : model -> Prop :=
| reachable_initial : reachable InitialModel
| reachable_update m msg w m' cmd w' :
    reachable m -> Update msg m w = Return (m', cmd) w' -> reachable m'.

End with_json.

End tui.

(** What the callbacks of [scrapeEvents] keep true of the map: its keys
    are the titles seen so far and every entry carries its key as title. *)
Definition keyed (titles : gset string) (m : gmap string Event) : Prop :=
  dom m = titles ∧ forall title e, m !! title = Some e -> Title e = title.

(** More sample data. *)
Module sample2.

(** A category block of the older page views with mixed labels. *)
Definition labels : list string := ["Free"; "Music"; "free"; "FREE"]%string.

(** The page with the quiz announced twice. *)
Definition doubled : Page :=
  {| event_items := [sample.quiz; sample.quiz];
     msl_event_name := ["Quiz Night"; "Market"; "Quiz Night"];
     msl_event_time := [("Quiz Night", "Mon 7pm")];
     msl_event_description := [];
     msl_event_location := [];
     msl_event_types := [("Quiz Night", labels)] |}%string.


(** Where the user cache directory should be there is a regular file. *)
Definition cache_root_is_a_file : World :=
  sample.world [["home"]; ["home"; "student"]]%string [(sample.root, "x"%string)] []
               false (Served sample.page) [].

(** A file of another program next to the place of the application
    directory, which is not there yet. *)
Definition notes : path := filepath.Join sample.root "notes.txt".
Definition with_notes : World :=
  sample.world [["home"]; ["home"; "student"]; sample.root]%string
               [(notes, "keep"%string)] [] false (Served sample.page) [].

End sample2.

(** * Properties *)

(** ** Strings *)

Lemma lowerByte_comma c :
  Ascii.eqb (gostrings.lowerByte c) ","%char = Ascii.eqb c ","%char.
Proof. by destruct c as [[] [] [] [] [] [] [] []]. Qed.

Lemma occurs_ToLower s :
  gostrings.occurs "," (gostrings.ToLower s) = gostrings.occurs "," s.
Proof.
  induction s as [|c r IH]; simpl; [done|].
  by rewrite lowerByte_comma, IH.
Qed.

Lemma occurs_app c (s t : string) :
  gostrings.occurs c (s +:+ t) = gostrings.occurs c s || gostrings.occurs c t.
Proof.
  induction s as [|a r IH]; simpl; [done|].
  by rewrite IH, orb_assoc.
Qed.

Lemma ToLower_free_no_comma s :
  gostrings.ToLower s = "free"%string -> gostrings.occurs "," s = false.
Proof.
  intros Hs. rewrite <- occurs_ToLower, Hs. reflexivity.
Qed.

Lemma Join_cons2 x y r sep :
  gostrings.Join (x :: y :: r) sep = (x +:+ sep +:+ gostrings.Join (y :: r) sep)%string.
Proof. reflexivity. Qed.

Lemma Join_nonempty x r sep :
  x ≠ ""%string -> gostrings.Join (x :: r) sep ≠ ""%string.
Proof.
  intros Hx. destruct r as [|y r]; [done|].
  rewrite Join_cons2. destruct x; [done|]. discriminate.
Qed.

(** ** The category of a container *)

(** The loop with [append] is a filter of the trimmed link texts. *)
Lemma foldl_collect (links acc : list string) :
  foldl (fun categories el =>
           let categoryText := gostrings.TrimSpace el in
           if keepCategory categoryText then categories ++ [categoryText]
           else categories) acc links
  = acc ++ List.filter keepCategory (gostrings.TrimSpace <$> links).
Proof.
  revert acc. induction links as [|el links IH]; intros acc; simpl.
  - by rewrite app_nil_r.
  - rewrite IH. destruct (keepCategory (gostrings.TrimSpace el)); [|done].
    by rewrite <- app_assoc.
Qed.

Lemma keepCategory_spec label :
  keepCategory label = true <->
  label ≠ ""%string ∧ gostrings.ToLower label ≠ "free"%string.
Proof.
  unfold keepCategory. rewrite andb_true_iff, !negb_true_iff.
  rewrite <- !not_true_iff_false, !String.eqb_eq. tauto.
Qed.

Lemma collectCategories_filter links :
  collectCategories links =
  filter (fun label => label ≠ ""%string ∧ gostrings.ToLower label ≠ "free"%string)
         (gostrings.TrimSpace <$> links).
Proof.
  unfold collectCategories. rewrite foldl_collect. simpl.
  induction (gostrings.TrimSpace <$> links) as [|x l IH]; [done|].
  simpl. rewrite filter_cons.
  destruct (keepCategory x) eqn:Hk.
  - rewrite decide_True by by apply keepCategory_spec. by rewrite IH.
  - rewrite decide_False; [done|]. rewrite <- keepCategory_spec. congruence.
Qed.

(** The category of every record is the joined list of the labels that are
    neither empty nor the spam word; with no such label it is the default. *)
Lemma categoryOf_spec links :
  let kept := filter (fun label => label ≠ ""%string ∧ gostrings.ToLower label ≠ "free"%string)
                     (gostrings.TrimSpace <$> links) in
  categoryOf links = (if decide (kept = []) then "uncategorized"%string
                      else gostrings.Join kept ", ")
  ∧ Forall (fun label => label ≠ ""%string ∧ gostrings.ToLower label ≠ "free"%string) kept
  ∧ gostrings.ToLower (categoryOf links) ≠ "free"%string
  ∧ categoryOf links ≠ ""%string.
Proof.
  intros kept. unfold categoryOf. rewrite collectCategories_filter. fold kept.
  assert (Hall : Forall (fun label => label ≠ ""%string
                           ∧ gostrings.ToLower label ≠ "free"%string) kept).
  { apply Forall_forall. intros x Hx. by apply list_elem_of_filter in Hx as [? _]. }
  destruct kept as [|x r].
  - repeat split; [done | vm_compute; discriminate | discriminate].
  - apply Forall_cons in Hall as Hx. destruct Hx as [[Hx1 Hx2] Hr].
    replace (0 <? Z.of_nat (length (x :: r))) with true
      by (symmetry; apply Z.ltb_lt; simpl; lia).
    rewrite decide_False by done.
    repeat split; try done.
    + destruct r as [|y r]; [done|].
      rewrite Join_cons2. intros Hfree. apply ToLower_free_no_comma in Hfree.
      rewrite !occurs_app in Hfree. simpl in Hfree.
      by rewrite orb_true_r in Hfree.
    + by apply Join_nonempty.
Qed.

(** C2. For every container that yields a record, the category is built
    from the texts of all category links: entries that are empty or equal
    to "free" without regard to case are dropped, the remaining ones are
    joined by ", " in document order, and with none remaining the category
    is "uncategorized".  No joined entry is the spam word, the category as a
    whole is not the spam word, and the category is never empty. *)
Theorem category_of_container (e : Container) (event : Event) :
  extract e = Some event ->
  let kept := filter (fun label => label ≠ ""%string ∧ gostrings.ToLower label ≠ "free"%string)
                     (gostrings.TrimSpace <$> event_types e) in
  Category event = (if decide (kept = []) then "uncategorized"%string
                    else gostrings.Join kept ", ")
  ∧ Forall (fun label => label ≠ ""%string ∧ gostrings.ToLower label ≠ "free"%string) kept
  ∧ gostrings.ToLower (Category event) ≠ "free"%string
  ∧ Category event ≠ ""%string.
Proof.
  unfold extract. destruct (String.eqb _ _); [discriminate|].
  intros [= <-]. simpl. apply categoryOf_spec.
Qed.

(** ** The traversal and the cap *)

Lemma foldl_onEventItem numEvents items s :
  eventCount s = Z.of_nat (length (events s)) ->
  let s' := foldl (onEventItem numEvents) s items in
  events s' = events s ++ take (Z.to_nat numEvents - length (events s))%nat (omap extract items)
  ∧ eventCount s' = Z.of_nat (length (events s')).
Proof.
  revert s. induction items as [|e items IH]; intros s Hs; simpl.
  - by rewrite take_nil, app_nil_r.
  - unfold onEventItem at 2 4 6. destruct (numEvents <=? eventCount s) eqn:Hcap.
    + apply Z.leb_le in Hcap.
      match goal with |- context [foldl _ ?s0 items] =>
        destruct (IH s0) as [IH1 IH2]; [done|] end.
      simpl in IH1. split; [|done]. rewrite IH1.
      replace (Z.to_nat numEvents - length (events s))%nat with 0%nat by lia.
      by rewrite !take_0.
    + apply Z.leb_gt in Hcap. destruct (extract e) as [event|].
      * match goal with |- context [foldl _ ?s0 items] =>
          destruct (IH s0) as [IH1 IH2] end.
        { simpl. rewrite length_app. simpl. lia. }
        simpl in IH1. split; [|done]. rewrite IH1, <- app_assoc. simpl.
        rewrite length_app. simpl.
        replace (Z.to_nat numEvents - length (events s))%nat
          with (S (Z.to_nat numEvents - (length (events s) + 1)))%nat by lia.
        done.
      * match goal with |- context [foldl _ ?s0 items] =>
          destruct (IH s0) as [IH1 IH2]; [done|] end.
        done.
Qed.

(** The traversal collects the first [numEvents] records. *)
Lemma traverse_events numEvents items :
  events (traverse numEvents items) = take (Z.to_nat numEvents) (omap extract items).
Proof.
  unfold traverse.
  destruct (foldl_onEventItem numEvents items newScrape) as [H1 _]; [done|].
  rewrite H1. simpl. by rewrite Nat.sub_0_r.
Qed.

Lemma traverse_count numEvents items :
  eventCount (traverse numEvents items)
  = Z.of_nat (length (events (traverse numEvents items))).
Proof.
  unfold traverse.
  by destruct (foldl_onEventItem numEvents items newScrape) as [_ H2].
Qed.

Lemma traverse_length numEvents items :
  0 <= numEvents ->
  Z.of_nat (length (events (traverse numEvents items))) <= numEvents.
Proof.
  intros Hn. rewrite traverse_events, length_take. lia.
Qed.

(** Once the cap is reached, the callback only asks for the abort. *)
Lemma foldl_onEventItem_full numEvents items s :
  numEvents <= eventCount s ->
  foldl (onEventItem numEvents) s items =
  {| events := events s; eventCount := eventCount s;
     aborted := aborted s || bool_decide (items ≠ []); warnings := warnings s |}.
Proof.
  revert s. induction items as [|e items IH]; intros s Hs; simpl.
  - rewrite orb_false_r. by destruct s.
  - unfold onEventItem at 2. apply Z.leb_le in Hs as Hs'. rewrite Hs'.
    rewrite IH by done. simpl. by rewrite orb_true_r.
Qed.

Lemma traverse_app numEvents pre post :
  traverse numEvents (pre ++ post)
  = foldl (onEventItem numEvents) (traverse numEvents pre) post.
Proof. unfold traverse. by rewrite foldl_app. Qed.

Lemma clampNumEvents_range numEvents :
  2 <= clampNumEvents numEvents <= 25.
Proof.
  unfold clampNumEvents.
  destruct (numEvents <? 2) eqn:H1; [lia|].
  destruct (25 <? numEvents) eqn:H2; [lia|].
  apply Z.ltb_ge in H1. apply Z.ltb_ge in H2. lia.
Qed.

Lemma clampNumEvents_id numEvents :
  2 <= numEvents <= 25 -> clampNumEvents numEvents = numEvents.
Proof.
  intros [H1 H2]. unfold clampNumEvents.
  apply Z.ltb_ge in H1. rewrite H1.
  apply Z.ltb_ge in H2. by rewrite H2.
Qed.

(** ** The cache directory *)

Ltac run := unfold mbind, M_bind, mret, M_ret in *.

Lemma Dir_Join dir name : filepath.Dir (filepath.Join dir name) = dir.
Proof. apply removelast_last. Qed.

(** [getCacheDir] returns in three cases: the directory is already
    there; [os.Stat] fails for a reason other than a missing path, and
    nothing is done; or the directory is missing and can be made. *)
Lemma getCacheDir_Return w dir w1 :
  getCacheDir w = Return dir w1 <->
  exists root,
    user_cache_dir w = Some root ∧ dir = filepath.Join root "rhs-scraper"
    ∧ (((exists_at w dir = true ∨ blocked_by_file w dir = true) ∧ w1 = w)
       ∨ (exists_at w dir = false ∧ blocked_by_file w dir = false
          ∧ root ∈ dirs w ∧ (root ∉ read_only w)
          ∧ w1 = with_fs ({[ dir ]} ∪ dirs w) (files w) w)).
Proof.
  unfold getCacheDir, UserCacheDir, StatIsNotExist, Mkdir, can_mkdir, Fatalf. run.
  destruct (user_cache_dir w) as [root|] eqn:Hroot;
    [|split; [done|intros (?&?&?); done]].
  rewrite Dir_Join. simpl.
  destruct (exists_at w (filepath.Join root "rhs-scraper")) eqn:Hex;
    simpl; repeat (rewrite Hex; simpl).
  - split.
    + intros [= <- <-]. exists root. split; [done|]. split; [done|]. left. by split; [left|].
    + intros (r & [= <-] & -> & [[_ ->]|[Hno _]]); [reflexivity|].
      exfalso. congruence.
  - destruct (blocked_by_file w (filepath.Join root "rhs-scraper")) eqn:Hblock;
      simpl; repeat (rewrite Hex; simpl).
    { split.
      - intros [= <- <-]. exists root. split; [done|]. split; [done|]. left. by split; [right|].
      - intros (r & [= <-] & -> & [[_ ->]|(_ & Hno & _)]); [reflexivity|].
        exfalso. congruence. }
    destruct (bool_decide (root ∈ dirs w)) eqn:Hd; simpl.
    + destruct (bool_decide (root ∈ read_only w)) eqn:Hro; simpl.
      * apply bool_decide_eq_true in Hro. split; [done|].
        intros (r & [= <-] & -> & [[[Hyes|Hyes] _]|(_ & _ & _ & Hn & _)]);
          [congruence|congruence|done].
      * apply bool_decide_eq_true in Hd. apply bool_decide_eq_false in Hro.
        split.
        -- intros [= <- <-]. exists root. split; [done|]. split; [done|]. by right.
        -- intros (r & [= <-] & -> & [[[Hyes|Hyes] _]|(_ & _ & _ & _ & ->)]);
             [congruence|congruence|done].
    + apply bool_decide_eq_false in Hd. split; [done|].
      intros (r & [= <-] & -> & [[[Hyes|Hyes] _]|(_ & _ & Hin & _)]);
        [congruence|congruence|done].
Qed.

(** What a returning [getCacheDir] leaves as it was; the directory is
    there afterwards unless a regular file stands in its path. *)
Lemma getCacheDir_frame w dir w1 :
  getCacheDir w = Return dir w1 ->
  user_cache_dir w1 = user_cache_dir w ∧ files w1 = files w
  ∧ read_only w1 = read_only w ∧ disk_full w1 = disk_full w
  ∧ calendar w1 = calendar w ∧ requests w1 = requests w ∧ now w1 = now w
  ∧ stdin w1 = stdin w ∧ stdout w1 = stdout w ∧ logged w1 = logged w
  ∧ dirs w ⊆ dirs w1
  ∧ (exists_at w1 dir = true ∨ (blocked_by_file w dir = true ∧ w1 = w)).
Proof.
  intros (root & Hroot & -> & [[Hex ->]|(Hex & _ & _ & _ & ->)])%getCacheDir_Return.
  - repeat split; try done. destruct Hex as [Hex|Hex]; [by left|by right].
  - repeat split; simpl; try done; [set_solver|]. left.
    unfold exists_at. simpl. rewrite bool_decide_true by set_solver. done.
Qed.

(** With the directory in place, [getCacheDir] changes nothing. *)
Lemma getCacheDir_present w root :
  user_cache_dir w = Some root ->
  exists_at w (filepath.Join root "rhs-scraper") = true ->
  getCacheDir w = Return (filepath.Join root "rhs-scraper") w.
Proof.
  intros Hroot Hex. apply getCacheDir_Return. exists root.
  split; [done|]. split; [done|]. left. by split; [left|].
Qed.

(** Without a user cache directory the process ends. *)
Lemma getCacheDir_no_root w :
  user_cache_dir w = None ->
  getCacheDir w =
  Exit 1 (with_logged (logged w ++ [LogFatal "!!error getting user cache directory"]) w).
Proof.
  intros Hroot. unfold getCacheDir, UserCacheDir, Fatalf. run. by rewrite Hroot.
Qed.

(** A missing directory that cannot be made ends the process. *)
Lemma getCacheDir_mkdir_fails w root :
  user_cache_dir w = Some root ->
  exists_at w (filepath.Join root "rhs-scraper") = false ->
  blocked_by_file w (filepath.Join root "rhs-scraper") = false ->
  root ∉ dirs w ∨ root ∈ read_only w ->
  getCacheDir w =
  Exit 1 (with_logged (logged w ++ [LogFatal "!!!error creating cache directory"]) w).
Proof.
  intros Hroot Hex Hblock Hbad.
  unfold getCacheDir, UserCacheDir, StatIsNotExist, Mkdir, can_mkdir, Fatalf. run.
  rewrite Hroot, Dir_Join. simpl. rewrite Hex, Hblock. simpl. rewrite Hex. simpl.
  destruct Hbad as [Hbad|Hbad].
  - by rewrite (bool_decide_false (root ∈ dirs w)).
  - rewrite (bool_decide_true (root ∈ read_only w)) by done.
    by rewrite andb_false_r.
Qed.

(** A regular file in the path of the directory: [os.Stat] fails, but not
    with a missing path, so nothing is made and the path is returned. *)
Lemma getCacheDir_blocked w root :
  user_cache_dir w = Some root ->
  blocked_by_file w (filepath.Join root "rhs-scraper") = true ->
  getCacheDir w = Return (filepath.Join root "rhs-scraper") w.
Proof.
  intros Hroot Hblock. apply getCacheDir_Return. exists root.
  split; [done|]. split; [done|]. left. by split; [right|].
Qed.

(** When [getCacheDir] ends the process, it does so with status 1 and one
    fatal line in the log, and nothing else has changed. *)
Lemma getCacheDir_Exit w code w1 :
  getCacheDir w = Exit code w1 ->
  code = 1 ∧ exists msg, w1 = with_logged (logged w ++ [LogFatal msg]) w.
Proof.
  unfold getCacheDir, UserCacheDir, StatIsNotExist, Mkdir, Fatalf. run.
  destruct (user_cache_dir w) as [root|]; simpl; [|intros [= <- <-]; by eauto].
  destruct (_ && _); simpl; [|done].
  destruct (can_mkdir _ _); simpl; [done|].
  intros [= <- <-]. by eauto.
Qed.

(** ** The cache file *)

Section cache.
Context `{json}.

(** The verdict of the freshness rule on what the cache file holds. *)
Lemma ShouldScrape_Return w dir w1 :
  getCacheDir w = Return dir w1 ->
  ShouldScrape w =
  Return (match files w !! filepath.Join dir "events.json" with
          | None => true
          | Some data =>
              match Unmarshal data with
              | None => true
              | Some cachedData =>
                  negb (Sub (now w) (LastScraped cachedData) <? 12 * Hour)
              end
          end) w1.
Proof.
  intros Hdir.
  destruct (getCacheDir_frame _ _ _ Hdir) as (_ & Hfiles & _ & _ & _ & _ & Hnow & _).
  unfold ShouldScrape, Open, Since. run. rewrite Hdir. simpl.
  rewrite Hfiles.
  destruct (files w !! filepath.Join dir "events.json") as [data|]; simpl.
  - destruct (Unmarshal data) as [cachedData|]; simpl; [|done].
    rewrite Hnow.
    by destruct (Sub (now w) (LastScraped cachedData) <? 12 * Hour).
  - by destruct (bool_decide _).
Qed.

(** The saturation of [Sub] does not change a comparison with twelve
    hours. *)
Lemma Sub_lt_12h t u :
  (Sub t u <? 12 * Hour) = (t - u <? 12 * Hour).
Proof.
  unfold Sub, minDuration, maxDuration, Hour.
  destruct (t - u <? 12 * 3600000000000) eqn:Hlt.
  - apply Z.ltb_lt in Hlt. apply Z.ltb_lt. lia.
  - apply Z.ltb_ge in Hlt. apply Z.ltb_ge. lia.
Qed.

(** What [LoadCachedEvents] returns once the directory is known. *)
Lemma LoadCachedEvents_Return w dir w1 :
  getCacheDir w = Return dir w1 ->
  LoadCachedEvents w =
  match files w !! filepath.Join dir "events.json" with
  | Some data =>
      match Unmarshal data with
      | Some cachedData =>
          Return (Events cachedData, None)
                 (with_logged (logged w1 ++ [LogLoaded (length (Events cachedData))]) w1)
      | None => Return ([], Some (Errorf "!error decoding cache file" errJSON)) w1
      end
  | None =>
      if bool_decide (filepath.Join dir "events.json" ∈ dirs w1)
      then Return ([], Some (Errorf "!error decoding cache file" errJSON)) w1
      else Return ([], Some (Errorf "!error opening cache file"
                               (errPath "open" (filepath.Join dir "events.json")))) w1
  end.
Proof.
  intros Hdir.
  destruct (getCacheDir_frame _ _ _ Hdir) as (_ & Hfiles & _).
  unfold LoadCachedEvents, Open, Println. run. rewrite Hdir. simpl.
  rewrite Hfiles.
  destruct (files w !! filepath.Join dir "events.json") as [data|]; simpl.
  - by destruct (Unmarshal data) as [cachedData|].
  - by destruct (bool_decide _).
Qed.

(** A successful [saveToCache] has written the encoding of the events,
    stamped with the current time, over whatever the file held. *)
Lemma saveToCache_nil evs w w' :
  saveToCache evs w = Return None w' ->
  exists dir w1 data,
    getCacheDir w = Return dir w1
    ∧ dir ∈ dirs w1
    ∧ Marshal {| LastScraped := now w; Events := evs |} = Some data
    ∧ w' = with_fs (dirs w1) (<[ filepath.Join dir "events.json" := data ]> (files w1)) w1.
Proof.
  unfold saveToCache, Now, Create, can_create, Encode, Write. run.
  destruct (getCacheDir w) as [dir w1|] eqn:Hdir; [|done].
  simpl. rewrite Dir_Join.
  destruct (bool_decide (dir ∈ dirs w1)) eqn:Hin;
    [|by rewrite andb_false_r].
  apply bool_decide_eq_true in Hin.
  destruct (_ && _ && _); [|done]. simpl.
  destruct (Marshal _) as [data|] eqn:Hm; [|done]. simpl.
  destruct (disk_full w1); [done|]. simpl.
  intros [= <-]. exists dir, w1, data. repeat split; try done.
  unfold with_fs. simpl. by rewrite insert_insert_eq.
Qed.

End cache.

(** ** The fetch *)

(** The bookkeeping of a request does not interfere with the cache
    directory. *)
Lemma getCacheDir_visited url lines w dir w1 :
  getCacheDir w = Return dir w1 ->
  getCacheDir (visited url lines w) = Return dir (visited url lines w1).
Proof.
  intros (root & Hroot & -> & Hcase)%getCacheDir_Return.
  apply getCacheDir_Return. exists root. split; [done|]. split; [done|].
  destruct Hcase as [[Hex ->]|(Hex & Hblock & Hin & Hro & ->)]; [by left|right].
  by repeat split.
Qed.

Section fetch.
Context `{json}.

Lemma ScrapeEvents_Failed numEvents w cause partial :
  calendar w = Failed cause partial ->
  ScrapeEvents numEvents w =
  Return ([], Some (Errorf "failed to visit events page" (errVisit cause)))
         (visited calendarURL
            (warnings (traverse (clampNumEvents numEvents) (event_items partial))
             ++ [LogErrorVisiting calendarURL (errVisit cause)]) w).
Proof.
  intros Hcal. unfold ScrapeEvents, Visit. run. by rewrite Hcal.
Qed.

Lemma ScrapeEvents_Served numEvents w p :
  calendar w = Served p ->
  let s := traverse (clampNumEvents numEvents) (event_items p) in
  ScrapeEvents numEvents w =
  match saveToCache (events s) (visited calendarURL (warnings s) w) with
  | Return None w' => Return (events s, None) w'
  | Return (Some err) w' =>
      Return ([], Some (Errorf "failed to save events to cache" err)) w'
  | Exit code w' => Exit code w'
  end.
Proof.
  intros Hcal. unfold ScrapeEvents, Visit. run. rewrite Hcal. simpl.
  destruct (saveToCache _ _) as [[err|] w'|code w']; done.
Qed.

(** [saveToCache] once the directory is known. *)
Lemma saveToCache_Return evs w dir w1 :
  getCacheDir w = Return dir w1 ->
  let cache := filepath.Join dir "events.json" in
  let truncated := with_fs (dirs w1) (<[ cache := ""%string ]> (files w1)) w1 in
  saveToCache evs w =
  if can_create w1 cache then
    match Marshal {| LastScraped := now w; Events := evs |} with
    | None =>
        Return (Some (Errorf "failed to encode events to JSON" errJSON)) truncated
    | Some data =>
        if disk_full w1 then
          Return (Some (Errorf "failed to encode events to JSON"
                          (errPath "write" cache))) truncated
        else Return None (with_fs (dirs w1) (<[ cache := data ]> (files w1)) w1)
    end
  else Return (Some (Errorf "failed to create cache file" (errPath "open" cache))) w1.
Proof.
  intros Hdir. unfold saveToCache, Now, Create, Encode, Write. run.
  rewrite Hdir. simpl.
  destruct (can_create w1 _); [|done]. simpl.
  destruct (Marshal _) as [data|]; [|done]. simpl.
  destruct (disk_full w1); [done|]. simpl.
  unfold with_fs. simpl. by rewrite insert_insert_eq.
Qed.

(** A fatal [getCacheDir] is fatal for [saveToCache]. *)
Lemma saveToCache_Exit evs w code w1 :
  getCacheDir w = Exit code w1 -> saveToCache evs w = Exit code w1.
Proof.
  intros Hdir. unfold saveToCache, Now. run. by rewrite Hdir.
Qed.

Lemma extract_titled e event :
  extract e = Some event -> Title event ≠ ""%string.
Proof.
  unfold extract.
  destruct (String.eqb _ _) eqn:Ht; [done|].
  intros [= <-]. simpl. by apply String.eqb_neq.
Qed.

Lemma traverse_titled numEvents items :
  Forall (fun event => Title event ≠ ""%string) (events (traverse numEvents items)).
Proof.
  rewrite traverse_events. apply Forall_take, Forall_forall.
  intros event (e & _ & He)%list_elem_of_omap. by eapply extract_titled.
Qed.

End fetch.

(** ** The freshness rule *)


(** C10. A readable, well-formed cache whose time stamp lies in the future
    is fresh: the elapsed time is negative, hence below twelve hours, and
    [ShouldScrape] returns false. *)
Theorem future_timestamp_is_fresh `{json} (w : World) (dir : path) (w1 : World)
    (data : string) (cachedData : CachedData) :
  getCacheDir w = Return dir w1 ->
  files w !! filepath.Join dir "events.json" = Some data ->
  Unmarshal data = Some cachedData ->
  now w < LastScraped cachedData ->
  Sub (now w) (LastScraped cachedData) < 0
  ∧ ShouldScrape w = Return false w1.
Proof.
  intros Hdir Hfile Hok Hfuture. split.
  - unfold Sub, minDuration, maxDuration. lia.
  - rewrite (ShouldScrape_Return _ _ _ Hdir), Hfile, Hok, Sub_lt_12h.
    assert ((now w - LastScraped cachedData <? 12 * Hour) = true) as ->; [|done].
    apply Z.ltb_lt. unfold Hour. lia.
Qed.

(** ** Skipping and capping *)

(** C4. A container whose trimmed title is empty yields no record: the
    callback only logs a warning, the records collected from a document are
    the same with and without the container, so the length of the result
    does not depend on it, and every event a fetch writes to the cache has
    a title. *)
Theorem untitled_container_skipped `{json} (c : Container) :
  gostrings.TrimSpace (event_name c) = ""%string ->
  extract c = None
  ∧ (forall numEvents s,
       eventCount s < numEvents ->
       onEventItem numEvents s c =
       {| events := events s; eventCount := eventCount s; aborted := aborted s;
          warnings := warnings s ++ [LogEmptyTitle] |})
  ∧ (forall numEvents pre post,
       events (traverse numEvents (pre ++ c :: post))
       = events (traverse numEvents (pre ++ post)))
  ∧ (forall numEvents w1 w2 p1 p2 pre post evs1 evs2 w1' w2',
       calendar w1 = Served p1 -> event_items p1 = pre ++ c :: post ->
       calendar w2 = Served p2 -> event_items p2 = pre ++ post ->
       ScrapeEvents numEvents w1 = Return (evs1, None) w1' ->
       ScrapeEvents numEvents w2 = Return (evs2, None) w2' ->
       evs1 = evs2 ∧ length evs1 = length evs2)
  ∧ (forall numEvents w evs w',
       ScrapeEvents numEvents w = Return (evs, None) w' ->
       Forall (fun event => Title event ≠ ""%string) evs
       ∧ exists cache data,
           files w' !! cache = Some data
           ∧ Marshal {| LastScraped := now w; Events := evs |} = Some data).
Proof.
  intros Hc.
  assert (Hnone : extract c = None) by (unfold extract; by rewrite Hc).
  assert (Hsame : forall numEvents pre post,
             events (traverse numEvents (pre ++ c :: post))
             = events (traverse numEvents (pre ++ post))).
  { intros. rewrite !traverse_events, !omap_app. simpl. by rewrite Hnone. }
  split; [done|]. split; [|split; [done|split]].
  - intros numEvents s Hs. unfold onEventItem.
    apply Z.leb_gt in Hs. by rewrite Hs, Hnone.
  - intros numEvents w1 w2 p1 p2 pre post evs1 evs2 w1' w2' Hc1 Hp1 Hc2 Hp2.
    rewrite (ScrapeEvents_Served _ _ _ Hc1), (ScrapeEvents_Served _ _ _ Hc2).
    simpl. rewrite Hp1, Hp2.
    destruct (saveToCache _ _) as [[?|] ?|]; [done| |done]. intros [= <- _].
    destruct (saveToCache _ _) as [[?|] ?|]; [done| |done]. intros [= <- _].
    by rewrite Hsame.
  - intros numEvents w evs w'. unfold ScrapeEvents at 1, Visit. run.
    destruct (calendar w) as [p|cause p]; simpl; [|done].
    destruct (saveToCache _ _) as [[?|] w2|] eqn:Hsave; simpl; [done| |done].
    intros [= <- <-]. split; [apply traverse_titled|].
    apply saveToCache_nil in Hsave as (dir & w1 & data & _ & _ & Hm & ->).
    exists (filepath.Join dir "events.json"), data. split; [|done].
    simpl. apply lookup_insert_eq.
Qed.

(** C3, as the code has it. The fetch returns at most [clampNumEvents
    numEvents] records: the first that many records with a title, in
    document order, which is [numEvents] itself whenever it lies between 2
    and 25. Once that many records are collected, the callback extracts
    nothing from the containers that follow and only asks for the abort. *)
Theorem fetch_returns_first_clamped `{json} (numEvents : Z) (w : World) (p : Page)
    (evs : list Event) (err : option error) (w' : World) :
  calendar w = Served p ->
  ScrapeEvents numEvents w = Return (evs, err) w' ->
  let cap := clampNumEvents numEvents in
  let valid := omap extract (event_items p) in
  Z.of_nat (length evs) <= cap
  ∧ (err = None -> evs = take (Z.to_nat cap) valid)
  ∧ (2 <= numEvents <= 25 -> cap = numEvents)
  ∧ (forall pre post,
       event_items p = pre ++ post ->
       cap <= Z.of_nat (length (omap extract pre)) ->
       traverse cap (pre ++ post) =
       {| events := take (Z.to_nat cap) (omap extract pre);
          eventCount := cap;
          aborted := aborted (traverse cap pre) || bool_decide (post ≠ []);
          warnings := warnings (traverse cap pre) |}).
Proof.
  intros Hcal Hret cap valid.
  pose proof (clampNumEvents_range numEvents) as Hcap. fold cap in Hcap.
  rewrite (ScrapeEvents_Served _ _ _ Hcal) in Hret. simpl in Hret. fold cap in Hret.
  split; [|split; [|split]].
  - destruct (saveToCache _ _) as [[?|] ?|]; [| |done];
      injection Hret as <- _ _; [simpl; lia|].
    apply traverse_length. lia.
  - intros ->. destruct (saveToCache _ _) as [[?|] ?|]; [done| |done].
    injection Hret as <- _. apply traverse_events.
  - apply clampNumEvents_id.
  - intros pre post _ Hfull.
    assert (Hev : events (traverse cap pre) = take (Z.to_nat cap) (omap extract pre))
      by apply traverse_events.
    assert (Hcount : eventCount (traverse cap pre) = cap).
    { rewrite traverse_count, Hev, length_take. lia. }
    rewrite traverse_app, foldl_onEventItem_full by lia.
    by rewrite Hev, Hcount.
Qed.

(** ** Failures *)

(** C5. When the visit fails, the fetch returns the visit error with no
    events, whatever the callbacks had collected, and leaves the
    directories and files as they were: the cache is neither written nor
    overwritten. *)
Theorem failed_fetch_keeps_cache `{json} (numEvents : Z) (w : World)
    (cause : string) (partial : Page) :
  calendar w = Failed cause partial ->
  exists w',
    ScrapeEvents numEvents w =
    Return ([], Some (Errorf "failed to visit events page" (errVisit cause))) w'
    ∧ files w' = files w ∧ dirs w' = dirs w
    ∧ requests w' = requests w ++ [calendarURL].
Proof.
  intros Hcal. eexists. rewrite (ScrapeEvents_Failed _ _ _ _ Hcal).
  by repeat split.
Qed.

(** C8, as the code has it. After a successful visit, a cache file that
    cannot be created or written makes the fetch return that failure as its
    own error, with no events.  A user cache directory that cannot be
    determined, and an application directory that [os.Stat] reports missing
    and [os.Mkdir] cannot make, end the process inside [getCacheDir].  When
    [os.Stat] fails for another reason, as with a regular file in the path,
    [getCacheDir] returns the path all the same and the fetch returns the
    error of the file it cannot create. *)
Theorem cache_write_failure `{json} (numEvents : Z) (w : World) (p : Page) :
  calendar w = Served p ->
  let evs := events (traverse (clampNumEvents numEvents) (event_items p)) in
  (forall dir w1,
     getCacheDir w = Return dir w1 ->
     can_create w1 (filepath.Join dir "events.json") = false ->
     exists w',
       ScrapeEvents numEvents w =
       Return ([], Some (Errorf "failed to save events to cache"
                           (Errorf "failed to create cache file"
                              (errPath "open" (filepath.Join dir "events.json"))))) w')
  ∧ (forall dir w1,
       getCacheDir w = Return dir w1 ->
       can_create w1 (filepath.Join dir "events.json") = true ->
       Marshal {| LastScraped := now w; Events := evs |} = None ∨ disk_full w = true ->
       exists cause w',
         ScrapeEvents numEvents w =
         Return ([], Some (Errorf "failed to save events to cache"
                             (Errorf "failed to encode events to JSON" cause))) w')
  ∧ (user_cache_dir w = None -> exists w', ScrapeEvents numEvents w = Exit 1 w')
  ∧ (forall root,
       user_cache_dir w = Some root ->
       exists_at w (filepath.Join root "rhs-scraper") = false ->
       blocked_by_file w (filepath.Join root "rhs-scraper") = false ->
       root ∉ dirs w ∨ root ∈ read_only w ->
       exists w', ScrapeEvents numEvents w = Exit 1 w')
  ∧ (forall root,
       user_cache_dir w = Some root ->
       exists_at w (filepath.Join root "rhs-scraper") = false ->
       blocked_by_file w (filepath.Join root "rhs-scraper") = true ->
       let cache := filepath.Join (filepath.Join root "rhs-scraper") "events.json" in
       exists w',
         ScrapeEvents numEvents w =
         Return ([], Some (Errorf "failed to save events to cache"
                             (Errorf "failed to create cache file"
                                (errPath "open" cache)))) w'
         ∧ files w' = files w ∧ dirs w' = dirs w).
Proof.
  intros Hcal evs. rewrite (ScrapeEvents_Served _ _ _ Hcal). simpl. fold evs.
  set (w2 := visited _ _ w).
  split; [|split; [|split; [|split]]].
  - intros dir w1 Hdir Hno.
    apply (getCacheDir_visited calendarURL
             (warnings (traverse (clampNumEvents numEvents) (event_items p)))) in Hdir.
    fold w2 in Hdir. rewrite (saveToCache_Return _ _ _ _ Hdir).
    change (can_create (visited _ _ w1) ?q) with (can_create w1 q).
    rewrite Hno. by eexists.
  - intros dir w1 Hdir Hyes Hbad.
    destruct (getCacheDir_frame _ _ _ Hdir) as (_ & _ & _ & Hfull & _).
    apply (getCacheDir_visited calendarURL
             (warnings (traverse (clampNumEvents numEvents) (event_items p)))) in Hdir.
    fold w2 in Hdir. rewrite (saveToCache_Return _ _ _ _ Hdir).
    change (can_create (visited _ _ w1) ?q) with (can_create w1 q).
    rewrite Hyes. change (now w2) with (now w).
    change (disk_full (visited _ _ w1)) with (disk_full w1). rewrite Hfull.
    destruct (Marshal _) as [data|]; [|by eexists _, _].
    destruct Hbad as [Hbad| ->]; [done|]. by eexists _, _.
  - intros Hroot. rewrite (saveToCache_Exit _ _ _ _ (getCacheDir_no_root w2 Hroot)).
    by eexists.
  - intros root Hroot Hex Hblock Hbad.
    rewrite (saveToCache_Exit _ _ _ _
               (getCacheDir_mkdir_fails w2 root Hroot Hex Hblock Hbad)).
    by eexists.
  - intros root Hroot Hex Hblock.
    rewrite (saveToCache_Return _ _ _ _ (getCacheDir_blocked w2 root Hroot Hblock)).
    set (cache := filepath.Join (filepath.Join root "rhs-scraper") "events.json").
    assert (Hno : can_create w2 cache = false).
    { unfold can_create, cache. rewrite Dir_Join.
      apply orb_false_iff in Hex as [Hex _].
      change (dirs w2) with (dirs w). rewrite Hex. by rewrite andb_false_r. }
    rewrite Hno. by eexists.
Qed.

(** ** Save and load *)


(** ** What a run leaves untouched *)

Lemma keeps_ret {X A} (f : World -> X) (a : A) : keeps f (mret a).
Proof. by intros w. Qed.

Lemma keeps_bind {X A B} (f : World -> X) (m : M A) (k : A -> M B) :
  keeps f m -> (forall a, keeps f (k a)) -> keeps f (m ≫= k).
Proof.
  intros Hm Hk w. specialize (Hm w). run.
  destruct (m w) as [a w1|code w1]; simpl in *; [|done].
  by rewrite Hk.
Qed.

Lemma keeps_Return {X A} (f : World -> X) (m : M A) w a w1 :
  keeps f m -> m w = Return a w1 -> f w1 = f w.
Proof. intros Hm Hw. specialize (Hm w). by rewrite Hw in Hm. Qed.

(** The primitives keep an observation that does not look at what they
    change. *)
Section keeps_fs.
Context {X : Type} (f : World -> X).
Hypothesis f_fs : forall ds fs w, f (with_fs ds fs w) = f w.
Hypothesis f_logged : forall ls w, f (with_logged ls w) = f w.

Lemma keeps_Println l : keeps f (Println l).
Proof. intros w. apply f_logged. Qed.
Lemma keeps_Fatalf {A} msg : keeps f (Fatalf (A:=A) msg).
Proof. intros w. apply f_logged. Qed.
Lemma keeps_Since t : keeps f (Since t).
Proof. by intros w. Qed.
Lemma keeps_UserCacheDir : keeps f UserCacheDir.
Proof. by intros w. Qed.
Lemma keeps_StatIsNotExist p : keeps f (StatIsNotExist p).
Proof. by intros w. Qed.
Lemma keeps_Open p : keeps f (Open p).
Proof. by intros w. Qed.
Lemma keeps_Mkdir p : keeps f (Mkdir p).
Proof. intros w. unfold Mkdir. destruct (can_mkdir w p); simpl; [apply f_fs|done]. Qed.

Lemma keeps_getCacheDir : keeps f getCacheDir.
Proof.
  unfold getCacheDir.
  apply keeps_bind; [apply keeps_UserCacheDir|intros [root|]; [|apply keeps_Fatalf]].
  apply keeps_bind; [apply keeps_StatIsNotExist|intros [|]; [|apply keeps_ret]].
  apply keeps_bind; [apply keeps_Mkdir|intros [err|]];
    [apply keeps_Fatalf|apply keeps_ret].
Qed.



Lemma keeps_ShouldScrape `{json} : keeps f ShouldScrape.
Proof.
  unfold ShouldScrape.
  apply keeps_bind; [apply keeps_getCacheDir|intros dir].
  apply keeps_bind; [apply keeps_Open|intros [file|]; [|apply keeps_ret]].
  destruct (Decode file); [|apply keeps_ret].
  apply keeps_bind; [apply keeps_Since|intros d].
  destruct (_ <? _); apply keeps_ret.
Qed.

Lemma keeps_LoadCachedEvents `{json} : keeps f LoadCachedEvents.
Proof.
  unfold LoadCachedEvents.
  apply keeps_bind; [apply keeps_getCacheDir|intros dir].
  apply keeps_bind; [apply keeps_Open|intros [file|]; [|apply keeps_ret]].
  destruct (Decode file); [|apply keeps_ret].
  apply keeps_bind; [apply keeps_Println|intros _; apply keeps_ret].
Qed.

End keeps_fs.



Section orchestrator.
Context `{json}.


Variable range : gmap string Event -> list (string * Event).






(** The callbacks of the command-line fetch never count: the counter
    moves only in [OnScraped]. *)
Lemma onHTML_count numEvents p s :
  Cli.events (Cli.onHTML numEvents p s) = Cli.events s
  ∧ Cli.eventCount (Cli.onHTML numEvents p s) = Cli.eventCount s.
Proof.
  assert (Hfold : forall {T} (g : Cli.Scrape -> T -> Cli.Scrape) (l : list T) s0,
             (forall s1 x, Cli.events (g s1 x) = Cli.events s1
                           ∧ Cli.eventCount (g s1 x) = Cli.eventCount s1) ->
             Cli.events (foldl g s0 l) = Cli.events s0
             ∧ Cli.eventCount (foldl g s0 l) = Cli.eventCount s0).
  { intros T g l. induction l as [|x l IH]; intros s0 Hg; simpl; [done|].
    destruct (IH (g s0 x) Hg) as [-> ->]. apply Hg. }
  assert (Hfield : forall set label s1 x,
             Cli.events (Cli.onField set label numEvents s1 x) = Cli.events s1
             ∧ Cli.eventCount (Cli.onField set label numEvents s1 x) = Cli.eventCount s1).
  { intros. unfold Cli.onField. by repeat case_match. }
  unfold Cli.onHTML.
  repeat match goal with |- context [foldl ?g ?s0 ?l] =>
    lazymatch s0 with
    | context [foldl] => fail
    | _ => idtac
    end;
    let H1 := fresh in let H2 := fresh in
    destruct (Hfold _ g l s0) as [H1 H2];
    [ intros; first [apply Hfield | unfold Cli.onName, Cli.onTypes; by repeat case_match]
    | generalize dependent (foldl g s0 l); intros ]
  end.
  split; congruence.
Qed.

Lemma foldl_collect_length numEvents entries s :
  Cli.eventCount s = Z.of_nat (length (Cli.events s)) ->
  let s' := foldl (Cli.collect numEvents) s entries in
  Cli.eventCount s' = Z.of_nat (length (Cli.events s'))
  ∧ Z.of_nat (length (Cli.events s')) <= Z.max numEvents (Z.of_nat (length (Cli.events s))).
Proof.
  revert s. induction entries as [|x l IH]; intros s Hs; simpl; [lia|].
  unfold Cli.collect at 2 4 6. destruct (numEvents <=? Cli.eventCount s) eqn:Hcap.
  - by apply IH.
  - apply Z.leb_gt in Hcap.
    match goal with |- context [foldl _ ?s0 l] => destruct (IH s0) as [H1 H2] end.
    { simpl. rewrite length_app. simpl. lia. }
    split; [done|]. simpl in H2. rewrite length_app in H2. simpl in H2. lia.
Qed.

(** What the command-line fetch saves is bounded by the number it is
    given, without any clamping of its own. *)
Lemma collectAll_length numEvents p :
  Z.of_nat (length (Cli.events
     (Cli.collectAll range numEvents (Cli.onHTML numEvents p Cli.newScrape))))
  <= Z.max 0 numEvents.
Proof.
  unfold Cli.collectAll.
  destruct (onHTML_count numEvents p Cli.newScrape) as [He Hc]. simpl in He, Hc.
  match goal with |- context [foldl _ ?s0 ?l] =>
    destruct (foldl_collect_length numEvents l s0) as [_ Hle] end.
  { by rewrite He, Hc. }
  simpl in Hle. rewrite He in Hle. simpl in Hle. lia.
Qed.

End orchestrator.

(** ** Who clamps, and who decides to fetch *)

Lemma clampNumEvents_idem numEvents :
  clampNumEvents (clampNumEvents numEvents) = clampNumEvents numEvents.
Proof. apply clampNumEvents_id, clampNumEvents_range. Qed.

(** C7, as the code has it. The number of events is clamped to the range
    from 2 to 25 (0 and 1 become 2, 1000 becomes 25).  In [main.go] the
    fetcher [ScrapeEvents] clamps the value it is given on entry, so that
    clamping beforehand changes nothing, and it never returns more than the
    clamped value.  In [scraper.go] it is [main] that clamps before it calls
    [scrapeEvents], which collects at most the number it is given and does
    not clamp. *)
Theorem clamp_by_the_fetcher `{json}
    (range : gmap string Event -> list (string * Event)) (numEvents : Z) :
  clampNumEvents 0 = 2 ∧ clampNumEvents 1 = 2 ∧ clampNumEvents 1000 = 25
  ∧ 2 <= clampNumEvents numEvents <= 25
  ∧ (forall w, ScrapeEvents numEvents w = ScrapeEvents (clampNumEvents numEvents) w)
  ∧ (forall w evs err w',
       ScrapeEvents numEvents w = Return (evs, err) w' ->
       Z.of_nat (length evs) <= clampNumEvents numEvents)
  ∧ (forall w,
       Cli.main range true numEvents w =
       (_ ← Print [OutText "Scraping..."];
        Cli.scrapeEvents range (clampNumEvents numEvents)) w)
  ∧ (forall forceScrape w,
       Cli.main range forceScrape numEvents w
       = Cli.main range forceScrape (clampNumEvents numEvents) w)
  ∧ (forall p,
       Z.of_nat (length (Cli.events
         (Cli.collectAll range numEvents (Cli.onHTML numEvents p Cli.newScrape))))
       <= Z.max 0 numEvents).
Proof.
  pose proof (clampNumEvents_range numEvents) as Hrange.
  repeat split; try done; try lia.
  - intros w. unfold ScrapeEvents. by rewrite clampNumEvents_idem.
  - intros w evs err w' Hret.
    destruct (calendar w) as [p|cause p] eqn:Hcal.
    + rewrite (ScrapeEvents_Served _ _ _ Hcal) in Hret. simpl in Hret.
      destruct (saveToCache _ _) as [[?|] ?|]; [| |done];
        injection Hret as <- _ _; [simpl; lia|].
      apply traverse_length. lia.
    + rewrite (ScrapeEvents_Failed _ _ _ _ Hcal) in Hret.
      injection Hret as <- _ _. simpl. lia.
  - intros forceScrape w. unfold Cli.main. by rewrite clampNumEvents_idem.
  - intros p. apply collectAll_length.
Qed.


(** ** The concrete codec reads back what it writes *)

Lemma app_String c (a b : string) : (String c a +:+ b = String c (a +:+ b))%string.
Proof. reflexivity. Qed.

Lemma app_nil_r_string (a : string) : (a +:+ "" = a)%string.
Proof. induction a as [|x a IH]; [done|]. by rewrite app_String, IH. Qed.

Lemma app_assoc_string (a b c : string) : ((a +:+ b) +:+ c = a +:+ (b +:+ c))%string.
Proof. induction a as [|x a IH]; [done|]. by rewrite !app_String, IH. Qed.

Lemma lex_escape s acc rest :
  jsonref.lex (jsonref.Inside acc)
    (jsonref.escape s +:+ String jsonref.dquote rest)
  = cons (jsonref.Str (acc +:+ s)) <$> jsonref.lex jsonref.Outside rest.
Proof.
  revert acc. induction s as [|c s IH]; intros acc.
  - by rewrite app_nil_r_string.
  - assert (Hacc : (jsonref.snoc acc c +:+ s = acc +:+ String c s)%string).
    { unfold jsonref.snoc. by rewrite app_assoc_string. }
    simpl. destruct (jsonref.special c) eqn:Hc.
    + rewrite !app_String. simpl. rewrite Hc, IH. by rewrite Hacc.
    + rewrite app_String. simpl.
      unfold jsonref.special in Hc. apply orb_false_elim in Hc as [-> ->].
      rewrite IH. by rewrite Hacc.
Qed.

Lemma lex_token t rest :
  jsonref.lex jsonref.Outside (jsonref.print_token t +:+ rest)
  = cons t <$> jsonref.lex jsonref.Outside rest.
Proof.
  destruct t; try reflexivity.
  unfold jsonref.print_token. rewrite app_String, app_assoc_string, app_String.
  change ("" +:+ rest)%string with rest. simpl. by rewrite lex_escape.
Qed.

Lemma lex_print ts :
  jsonref.lex jsonref.Outside (jsonref.print ts) = Some ts.
Proof.
  induction ts as [|t ts IH]; [done|]. simpl. by rewrite lex_token, IH.
Qed.

Lemma number_digits t : jsonref.number (jsonref.digits t) = Some t.
Proof.
  unfold jsonref.number, jsonref.digits.
  assert (Hnorm : Decimal.norm (Z.to_int t) = Z.to_int t).
  { rewrite <- DecimalZ.to_of. by rewrite DecimalZ.of_to. }
  rewrite NilZero.isi.
  - simpl. by rewrite DecimalZ.of_to.
  - intros Hnil. by rewrite Hnil in Hnorm.
  - intros Hnil. by rewrite Hnil in Hnorm.
Qed.

Lemma parse_events_tokens e l rest :
  jsonref.parse_events (jsonref.events_tokens (e :: l) ++ rest) = Some (e :: l, rest).
Proof.
  revert e. induction l as [|e' l IH]; intros e.
  - by destruct e.
  - change (jsonref.events_tokens (e :: e' :: l))
      with (jsonref.event_tokens e ++ jsonref.Comma :: jsonref.events_tokens (e' :: l)).
    rewrite <- app_assoc, <- app_comm_cons.
    pose proof (IH e') as Htail.
    remember (jsonref.events_tokens (e' :: l) ++ rest) as tail.
    destruct e. simpl. by rewrite Htail.
Qed.

Lemma parse_list_tokens l rest :
  jsonref.parse_list (jsonref.events_tokens l ++ rest) = Some (l, rest).
Proof.
  destruct l as [|e l]; [done|].
  rewrite <- (parse_events_tokens e l rest).
  by destruct l.
Qed.

Lemma unmarshal_marshal_ref d data :
  jsonref.marshal d = Some data -> jsonref.unmarshal data = Some d.
Proof.
  unfold jsonref.marshal. intros Hm.
  assert (data = jsonref.print (jsonref.data_tokens d)) as -> by congruence.
  unfold jsonref.unmarshal. rewrite lex_print.
  unfold jsonref.data_tokens, jsonref.parse_data. simpl.
  rewrite number_digits, parse_list_tokens. by destruct d.
Qed.

#[global] Instance jsonref_faithful : @json_faithful jsonref.codec.
Proof.
  intros d data Hm. exists (LastScraped d).
  destruct d. exact (unmarshal_marshal_ref _ data Hm).
Qed.

(** ** The sample runs *)

Lemma returned_Some {A} (o : Outcome A) (a : A) :
  returned o = Some a -> exists w, o = Return a w.
Proof. destruct o as [a' w|code w]; [|done]. intros [= ->]. by exists w. Qed.

(** The scenarios of the specification. *)
Example category_free_music : categoryOf ["Free"; "Music"]%string = "Music"%string.
Proof. reflexivity. Qed.

Example category_free_only : categoryOf ["free"]%string = "uncategorized"%string.
Proof. reflexivity. Qed.

(** A label that merely contains the spam word is kept. *)
Example category_freestyle : categoryOf ["Freestyle"]%string = "Freestyle"%string.
Proof. reflexivity. Qed.



Lemma future_timestamp_is_fresh_witness :
  sample.noon < sample.noon + Hour
  ∧ returned (ShouldScrape (sample.cached (sample.noon + Hour) [])) = Some false.
Proof.
  split; [reflexivity|].
  destruct (future_timestamp_is_fresh (sample.cached (sample.noon + Hour) [])
              sample.app (sample.cached (sample.noon + Hour) [])
              (sample.saved (sample.noon + Hour))
              {| LastScraped := sample.noon + Hour;
                 Events := [sample.quizEvent; sample.marketEvent] |})
    as [_ Hfresh]; [reflexivity..|].
  by rewrite Hfresh.
Defined.

Lemma category_of_container_witness :
  extract sample.quiz = Some sample.quizEvent
  ∧ Category sample.quizEvent = "Music, Social"%string
  ∧ Category sample.quizEvent ≠ ""%string.
Proof.
  split; [reflexivity|]. split; [reflexivity|].
  destruct (category_of_container sample.quiz sample.quizEvent) as (_ & _ & _ & Hne);
    [reflexivity|exact Hne].
Defined.

Lemma untitled_container_skipped_witness :
  gostrings.TrimSpace (event_name sample.untitled) = ""%string
  ∧ extract sample.untitled = None
  ∧ events (traverse 10 ([sample.quiz] ++ sample.untitled :: [sample.market; sample.film]))
    = events (traverse 10 ([sample.quiz] ++ [sample.market; sample.film])).
Proof.
  split; [reflexivity|].
  destruct (untitled_container_skipped (H:=jsonref.codec) sample.untitled)
    as (Hnone & _ & Hsame & _); [reflexivity|].
  split; [exact Hnone|apply Hsame].
Defined.

Lemma fetch_returns_first_clamped_witness :
  returned (ScrapeEvents 2 sample.first_run)
  = Some ([sample.quizEvent; sample.marketEvent], None)
  ∧ [sample.quizEvent; sample.marketEvent]
    = take 2 (omap extract (event_items sample.page)).
Proof.
  split; [reflexivity|].
  destruct (returned_Some (ScrapeEvents 2 sample.first_run)
              ([sample.quizEvent; sample.marketEvent], None)) as [w' Hret]; [reflexivity|].
  destruct (fetch_returns_first_clamped 2 sample.first_run sample.page
              _ _ _ eq_refl Hret) as (_ & Hfirst & _).
  exact (Hfirst eq_refl).
Defined.

Lemma fetch_cap_counterexample :
  ¬ (forall (numEvents : Z) (w : World) evs err w',
       ScrapeEvents numEvents w = Return (evs, err) w' ->
       Z.of_nat (length evs) <= numEvents).
Proof.
  intros Hclaim.
  destruct (returned_Some (ScrapeEvents 0 sample.first_run)
              ([sample.quizEvent; sample.marketEvent], None)) as [w' Hret]; [reflexivity|].
  apply Hclaim in Hret. simpl in Hret. lia.
Qed.

Lemma failed_fetch_keeps_cache_witness :
  exists w',
    ScrapeEvents 10 sample.offline =
    Return ([], Some (Errorf "failed to visit events page" (errVisit "connection refused"))) w'
    ∧ files w' = files sample.offline ∧ dirs w' = dirs sample.offline
    ∧ requests w' = requests sample.offline ++ [calendarURL].
Proof.
  exact (failed_fetch_keeps_cache 10 sample.offline "connection refused" sample.page eq_refl).
Defined.


Lemma cache_write_failure_witness :
  (exists err w', ScrapeEvents 10 sample.locked_dir = Return ([], Some err) w')
  ∧ (exists err w', ScrapeEvents 10 sample.full_disk = Return ([], Some err) w')
  ∧ (exists w', ScrapeEvents 10 sample.no_home = Exit 1 w')
  ∧ (exists w', ScrapeEvents 10 sample.no_mkdir = Exit 1 w')
  ∧ (exists err w', ScrapeEvents 10 sample2.cache_root_is_a_file = Return ([], Some err) w').
Proof.
  split; [|split; [|split; [|split]]].
  - destruct (cache_write_failure 10 sample.locked_dir sample.page eq_refl)
      as (Hcreate & _).
    destruct (Hcreate sample.app sample.locked_dir) as [w' Hret]; [reflexivity..|].
    by eexists _, _.
  - destruct (cache_write_failure 10 sample.full_disk sample.page eq_refl)
      as (_ & Hwrite & _).
    destruct (Hwrite sample.app sample.full_disk) as (cause & w' & Hret);
      [reflexivity..|by right|].
    by eexists _, _.
  - destruct (cache_write_failure 10 sample.no_home sample.page eq_refl)
      as (_ & _ & Hhome & _).
    exact (Hhome eq_refl).
  - destruct (cache_write_failure 10 sample.no_mkdir sample.page eq_refl)
      as (_ & _ & _ & Hmkdir & _).
    apply (Hmkdir sample.root); [reflexivity..|].
    right. apply (bool_decide_unpack (sample.root ∈ read_only sample.no_mkdir)).
    exact I.
  - destruct (cache_write_failure 10 sample2.cache_root_is_a_file sample.page eq_refl)
      as (_ & _ & _ & _ & Hfile).
    destruct (Hfile sample.root) as (w' & Hret & _); [reflexivity..|].
    eexists _, w'. exact Hret.
Defined.

Lemma fetch_exits_counterexample :
  ¬ (forall (numEvents : Z) (w : World) (p : Page),
       calendar w = Served p ->
       exists r w', ScrapeEvents numEvents w = Return r w').
Proof.
  intros Hclaim.
  destruct (Hclaim 10 sample.no_mkdir sample.page eq_refl) as (r & w' & Hret).
  assert (Hexit : returned (ScrapeEvents 10 sample.no_mkdir) = None) by reflexivity.
  rewrite Hret in Hexit. discriminate.
Qed.

Lemma clamp_by_the_fetcher_witness :
  clampNumEvents 0 = 2
  ∧ ScrapeEvents 0 sample.first_run = ScrapeEvents 2 sample.first_run.
Proof.
  destruct (clamp_by_the_fetcher sample.range 0) as (H0 & _ & _ & _ & Hsame & _).
  split; [exact H0|]. rewrite (Hsame sample.first_run). reflexivity.
Defined.

Lemma fetcher_clamps_counterexample :
  ¬ (forall (numEvents : Z) (w : World) (p : Page) evs w',
       calendar w = Served p ->
       ScrapeEvents numEvents w = Return (evs, None) w' ->
       evs = events (traverse numEvents (event_items p))).
Proof.
  intros Hclaim.
  destruct (returned_Some (ScrapeEvents 1 sample.first_run)
              ([sample.quizEvent; sample.marketEvent], None)) as [w' Hret]; [reflexivity|].
  apply (Hclaim 1 sample.first_run sample.page) in Hret; [|reflexivity].
  assert (Hone : events (traverse 1 (event_items sample.page)) = [sample.quizEvent])
    by reflexivity.
  rewrite Hone in Hret. discriminate.
Qed.



(** * Further properties *)

(** ** The cache directory and the read-only queries *)

Lemma getCacheDir_again w dir w1 :
  getCacheDir w = Return dir w1 -> getCacheDir w1 = Return dir w1.
Proof.
  intros Hdir.
  destruct (proj1 (getCacheDir_Return _ _ _) Hdir)
    as (root & Hr & -> & [[_ ->]|(_ & _ & _ & _ & ->)]); [done|].
  apply getCacheDir_present; [done|].
  unfold exists_at. simpl. rewrite bool_decide_true by set_solver. done.
Qed.


Lemma keeps_files_getCacheDir : keeps files getCacheDir.
Proof.
  intros w. destruct (getCacheDir w) as [dir w1|code w1] eqn:Hdir; simpl.
  - by destruct (getCacheDir_frame _ _ _ Hdir) as (_ & Hfiles & _).
  - unfold getCacheDir, UserCacheDir, StatIsNotExist, Mkdir, Fatalf in Hdir. run.
    destruct (user_cache_dir w); simpl in Hdir; [|by injection Hdir as _ <-].
    destruct (_ && _); simpl in Hdir; [|done].
    destruct (can_mkdir _ _); simpl in Hdir; [done|].
    by injection Hdir as _ <-.
Qed.

Lemma keeps_files_Println l : keeps files (Println l).
Proof. by intros w. Qed.

Lemma keeps_files_Print o : keeps files (Print o).
Proof. by intros w. Qed.

Lemma keeps_files_Open p : keeps files (Open p).
Proof. by intros w. Qed.

Lemma keeps_files_Since t : keeps files (Since t).
Proof. by intros w. Qed.

Lemma keeps_files_ShouldScrape `{json} : keeps files ShouldScrape.
Proof.
  unfold ShouldScrape.
  apply keeps_bind; [apply keeps_files_getCacheDir|intros dir].
  apply keeps_bind; [apply keeps_files_Open|intros [file|]; [|apply keeps_ret]].
  destruct (Decode file); [|apply keeps_ret].
  apply keeps_bind; [apply keeps_files_Since|intros d].
  destruct (_ <? _); apply keeps_ret.
Qed.

Lemma keeps_files_LoadCachedEvents `{json} : keeps files LoadCachedEvents.
Proof.
  unfold LoadCachedEvents.
  apply keeps_bind; [apply keeps_files_getCacheDir|intros dir].
  apply keeps_bind; [apply keeps_files_Open|intros [file|]; [|apply keeps_ret]].
  destruct (Decode file); [|apply keeps_ret].
  apply keeps_bind; [apply keeps_files_Println|intros _; apply keeps_ret].
Qed.

(** X2. The two queries on the cache, [ShouldScrape] and
    [LoadCachedEvents], never make a request and never create, change or
    remove a file, however they end; [ShouldScrape] prints and logs
    nothing when it returns. *)
Theorem cache_queries_read_only `{json} (w : World) :
  files (final (ShouldScrape w)) = files w
  ∧ requests (final (ShouldScrape w)) = requests w
  ∧ files (final (LoadCachedEvents w)) = files w
  ∧ requests (final (LoadCachedEvents w)) = requests w
  ∧ (forall b w1, ShouldScrape w = Return b w1 ->
       stdout w1 = stdout w ∧ logged w1 = logged w).
Proof.
  split; [apply keeps_files_ShouldScrape|].
  split; [by apply keeps_ShouldScrape|].
  split; [apply keeps_files_LoadCachedEvents|].
  split; [by apply keeps_LoadCachedEvents|].
  intros b w1 Hret. split.
  - by apply (keeps_Return stdout _ _ _ _ (keeps_ShouldScrape stdout
                (fun _ _ _ => eq_refl) (fun _ _ => eq_refl)) Hret).
  - destruct (getCacheDir w) as [dir w0|code w0] eqn:Hdir.
    + rewrite (ShouldScrape_Return _ _ _ Hdir) in Hret. injection Hret as _ <-.
      by destruct (getCacheDir_frame _ _ _ Hdir) as (_ & _ & _ & _ & _ & _ & _ & _ & _ & Hlog & _).
    + unfold ShouldScrape in Hret. run. by rewrite Hdir in Hret.
Qed.

(** ** Saving, and what a fetch leaves behind *)

Lemma ScrapeEvents_saved `{json} numEvents w evs w' :
  ScrapeEvents numEvents w = Return (evs, None) w' ->
  exists root w1 data,
    user_cache_dir w = Some root
    ∧ filepath.Join root "rhs-scraper" ∈ dirs w1
    ∧ user_cache_dir w1 = Some root
    ∧ Marshal {| LastScraped := now w; Events := evs |} = Some data
    ∧ w' = with_fs (dirs w1)
             (<[ filepath.Join (filepath.Join root "rhs-scraper") "events.json" := data ]>
                (files w1)) w1.
Proof.
  unfold ScrapeEvents, Visit. run.
  destruct (calendar w) as [p|cause p]; simpl; [|done].
  destruct (saveToCache _ _) as [[?|] w2|] eqn:Hsave; simpl; [done| |done].
  intros [= <- <-].
  apply saveToCache_nil in Hsave as (dir & w1 & data & Hdir & Hin & Hm & ->).
  destruct (proj1 (getCacheDir_Return _ _ _) Hdir) as (root & Hr & -> & _).
  destruct (getCacheDir_frame _ _ _ Hdir) as (Hr1 & _).
  exists root, w1, data. repeat split; try done. by rewrite Hr1.
Qed.

(** X3. With a codec that keeps the time stamp, a successful fetch leaves
    a cache that [LoadCachedEvents] reads back as exactly the events the
    fetch returned, at any later time; [ShouldScrape] says false while less
    than twelve hours have passed since the fetch, and true from twelve
    hours on. *)
Theorem fresh_after_fetch `{json_lossless} (numEvents : Z) (w : World)
    (evs : list Event) (w' : World) (t : Time) :
  ScrapeEvents numEvents w = Return (evs, None) w' ->
  (exists w'', LoadCachedEvents (with_now t w') = Return (evs, None) w'')
  ∧ (t - now w < 12 * Hour -> returned (ShouldScrape (with_now t w')) = Some false)
  ∧ (12 * Hour <= t - now w -> returned (ShouldScrape (with_now t w')) = Some true).
Proof.
  intros (root & w1 & data & Hroot & Hin & Hroot1 & Hm & ->)%ScrapeEvents_saved.
  set (w' := with_fs _ _ w1).
  assert (Hdir : getCacheDir (with_now t w')
                 = Return (filepath.Join root "rhs-scraper") (with_now t w')).
  { apply getCacheDir_present; [done|].
    unfold exists_at. simpl. by rewrite bool_decide_true. }
  pose proof (unmarshal_marshal_all _ _ Hm) as Hback.
  split; [|split].
  - rewrite (LoadCachedEvents_Return _ _ _ Hdir). simpl.
    rewrite lookup_insert_eq, Hback. simpl. by eexists.
  - intros Hage. rewrite (ShouldScrape_Return _ _ _ Hdir). simpl.
    rewrite lookup_insert_eq, Hback, Sub_lt_12h. simpl.
    apply Z.ltb_lt in Hage. by rewrite Hage.
  - intros Hage. rewrite (ShouldScrape_Return _ _ _ Hdir). simpl.
    rewrite lookup_insert_eq, Hback, Sub_lt_12h. simpl.
    apply Z.ltb_ge in Hage. by rewrite Hage.
Qed.

(** X4. [saveToCache] changes nothing but the cache file and, when it
    has to make it, the application directory, however it ends.  Every path
    other than the cache file holds afterwards the file it held before, or
    none as before; every path other than the application directory is a
    directory afterwards exactly when it was one before; and no directory
    is removed. *)
Theorem saveToCache_only_cache_file `{json} (evs : list Event) (w : World) (p : path) :
  ((forall root, user_cache_dir w = Some root ->
      p ≠ filepath.Join (filepath.Join root "rhs-scraper") "events.json") ->
   files (final (saveToCache evs w)) !! p = files w !! p)
  ∧ ((forall root, user_cache_dir w = Some root ->
        p ≠ filepath.Join root "rhs-scraper") ->
     (p ∈ dirs (final (saveToCache evs w)) <-> p ∈ dirs w))
  ∧ dirs w ⊆ dirs (final (saveToCache evs w)).
Proof.
  destruct (getCacheDir w) as [dir w1|code w1] eqn:Hdir.
  - destruct (proj1 (getCacheDir_Return _ _ _) Hdir) as (root & Hr & -> & Hcase).
    destruct (getCacheDir_frame _ _ _ Hdir) as (_ & Hfiles & _).
    assert (Hdirs : dirs (final (saveToCache evs w)) = dirs w1).
    { rewrite (saveToCache_Return _ _ _ _ Hdir). simpl.
      destruct (can_create _ _); simpl; [|done].
      destruct (Marshal _); simpl; [|done].
      by destruct (disk_full w1). }
    split; [|split].
    + intros Hp. specialize (Hp root Hr).
      rewrite (saveToCache_Return _ _ _ _ Hdir). simpl.
      destruct (can_create _ _); simpl; [|by rewrite Hfiles].
      destruct (Marshal _); simpl.
      * destruct (disk_full w1); simpl; by rewrite lookup_insert_ne, Hfiles.
      * by rewrite lookup_insert_ne, Hfiles.
    + intros Hp. specialize (Hp root Hr). rewrite Hdirs.
      destruct Hcase as [[_ ->]|(_ & _ & _ & _ & ->)]; [done|].
      simpl. set_solver.
    + rewrite Hdirs.
      destruct Hcase as [[_ ->]|(_ & _ & _ & _ & ->)]; [done|].
      simpl. set_solver.
  - rewrite (saveToCache_Exit _ _ _ _ Hdir). simpl.
    destruct (getCacheDir_Exit _ _ _ Hdir) as (_ & msg & ->). simpl.
    by repeat split.
Qed.

(** X5. A failed save is not harmless in every case.  When the file
    cannot be created, the files are as before and the old cache, if any,
    survives.  When it is created but the data cannot be encoded or
    written, the error is returned and the cache file is left empty: the
    old cache is gone. *)
Theorem failed_save_and_the_old_cache `{json} (evs : list Event) (w : World)
    (dir : path) (w1 : World) :
  getCacheDir w = Return dir w1 ->
  let cache := filepath.Join dir "events.json" in
  (can_create w1 cache = false ->
     exists err w', saveToCache evs w = Return (Some err) w' ∧ files w' = files w)
  ∧ (can_create w1 cache = true ->
       Marshal {| LastScraped := now w; Events := evs |} = None ∨ disk_full w = true ->
       exists err w',
         saveToCache evs w = Return (Some err) w'
         ∧ files w' !! cache = Some ""%string).
Proof.
  intros Hdir cache.
  destruct (getCacheDir_frame _ _ _ Hdir) as (_ & Hfiles & _ & Hfull & _).
  rewrite (saveToCache_Return _ _ _ _ Hdir). fold cache. split.
  - intros ->. by eexists _, _.
  - intros -> Hbad. rewrite Hfull.
    destruct (Marshal _) as [data|].
    + destruct Hbad as [Hbad| ->]; [done|].
      eexists _, _. split; [done|]. simpl. apply lookup_insert_eq.
    + eexists _, _. split; [done|]. simpl. apply lookup_insert_eq.
Qed.

(** ** More on the extractor and the traversal *)

(** X6. A category link whose trimmed text is empty or is "free" in any
    mix of cases is invisible: the category of a container is the same with
    and without it, wherever it stands among the links. *)
Theorem spam_link_is_invisible (pre post : list string) (link : string) :
  gostrings.TrimSpace link = ""%string
  ∨ gostrings.ToLower (gostrings.TrimSpace link) = "free"%string ->
  categoryOf (pre ++ link :: post) = categoryOf (pre ++ post).
Proof.
  intros Hspam. unfold categoryOf.
  assert (Hsame : collectCategories (pre ++ link :: post) = collectCategories (pre ++ post)).
  { rewrite !collectCategories_filter, !fmap_app, !filter_app, fmap_cons, filter_cons.
    rewrite decide_False; [done|]. intros [Hne Hnf]. by destruct Hspam. }
  by rewrite Hsame.
Qed.

Lemma traverse_snoc numEvents items e :
  traverse numEvents (items ++ [e]) = onEventItem numEvents (traverse numEvents items) e.
Proof. unfold traverse. by rewrite foldl_app. Qed.

Lemma omap_extract_length_app (l1 l2 : list Container) :
  (length (omap extract l1) <= length (omap extract (l1 ++ l2)))%nat.
Proof. rewrite omap_app, length_app. lia. Qed.

Lemma traverse_count_min numEvents items :
  0 <= numEvents ->
  eventCount (traverse numEvents items)
  = Z.min numEvents (Z.of_nat (length (omap extract items))).
Proof.
  intros Hn. rewrite traverse_count, traverse_events, length_take. lia.
Qed.

(** X7. The callback asks for the abort exactly when a container arrives
    after the cap has been reached: for a cap that is not negative, the
    request is aborted if and only if the containers before the last one
    already hold as many titled events as the cap. *)
Theorem abort_exactly_past_the_cap (numEvents : Z) (items : list Container) :
  0 <= numEvents ->
  aborted (traverse numEvents items) = true
  <-> items ≠ [] ∧ numEvents <= Z.of_nat (length (omap extract (removelast items))).
Proof.
  intros Hn. induction items as [|e items IH] using rev_ind.
  - split; [done|]. by intros [? _].
  - rewrite traverse_snoc, removelast_last. unfold onEventItem.
    pose proof (traverse_count_min numEvents items Hn) as Hcount.
    destruct (numEvents <=? eventCount (traverse numEvents items)) eqn:Hcap; simpl.
    + apply Z.leb_le in Hcap. split; [|done]. intros _.
      split; [by destruct items|]. lia.
    + apply Z.leb_gt in Hcap.
      assert (Hprev : aborted (traverse numEvents items) = true -> False).
      { intros Hab. apply IH in Hab as [Hne Hle].
        pose proof (omap_extract_length_app (removelast items) [List.last items e]) as Hmono.
        rewrite <- app_removelast_last in Hmono by done. lia. }
      destruct (extract e); simpl; (split; [by intros ?%Hprev|]); intros [_ Hle]; lia.
Qed.

Lemma warnings_snoc_bound numEvents s e :
  (length (warnings (onEventItem numEvents s e))
   <= length (warnings s) + (match extract e with Some _ => 0 | None => 1 end))%nat
  ∧ (eventCount s < numEvents ->
     length (warnings (onEventItem numEvents s e))
     = (length (warnings s) + (match extract e with Some _ => 0 | None => 1 end))%nat).
Proof.
  unfold onEventItem. destruct (numEvents <=? eventCount s) eqn:Hcap; simpl.
  - apply Z.leb_le in Hcap. split; [lia|]. lia.
  - destruct (extract e); simpl; rewrite ?length_app; simpl; split; lia.
Qed.

(** The traversal logs nothing but warnings about empty titles, at most
    one for each container without a title, and exactly one for each when
    the page holds fewer titled events than the cap. *)
Lemma traverse_warnings (numEvents : Z) (items : list Container) :
  let untitled := length (filter (fun e => extract e = None) items) in
  Forall (fun l => l = LogEmptyTitle) (warnings (traverse numEvents items))
  ∧ (length (warnings (traverse numEvents items)) <= untitled)%nat
  ∧ (Z.of_nat (length (omap extract items)) < numEvents ->
     length (warnings (traverse numEvents items)) = untitled).
Proof.
  induction items as [|e items IH] using rev_ind; [by repeat split|].
  destruct IH as (IH1 & IH2 & IH3).
  rewrite traverse_snoc, filter_app, length_app, omap_app, length_app.
  destruct (warnings_snoc_bound numEvents (traverse numEvents items) e) as [Hle Heq].
  assert (Hlast : length (filter (fun e0 => extract e0 = None) [e])
                  = match extract e with Some _ => 0%nat | None => 1%nat end).
  { rewrite filter_cons. destruct (extract e); by case_decide. }
  rewrite Hlast. split; [|split].
  - unfold onEventItem. destruct (_ <=? _); simpl; [done|].
    destruct (extract e); simpl; [done|]. apply Forall_app. split; [done|by constructor].
  - lia.
  - intros Hfew. rewrite Heq.
    + rewrite IH3; [done|lia].
    + rewrite traverse_count, traverse_events, length_take. lia.
Qed.

Lemma Forall_eq_replicate {A} (x : A) (l : list A) :
  Forall (fun y => y = x) l -> l = replicate (length l) x.
Proof. induction 1 as [|y l -> _ IH]; simpl; [done|]. by rewrite <- IH. Qed.

(** [saveToCache] logs nothing, except for the fatal line of a
    [getCacheDir] that ends the process. *)
Lemma saveToCache_logged `{json} evs w :
  logged (final (saveToCache evs w)) = logged w
  ∨ (exists msg code w',
       saveToCache evs w = Exit code w' ∧ logged w' = logged w ++ [LogFatal msg]).
Proof.
  destruct (getCacheDir w) as [dir w1|code w1] eqn:Hdir.
  - left.
    destruct (getCacheDir_frame _ _ _ Hdir)
      as (_ & _ & _ & _ & _ & _ & _ & _ & _ & Hlog & _).
    rewrite (saveToCache_Return _ _ _ _ Hdir). simpl.
    destruct (can_create _ _); simpl; [|done].
    destruct (Marshal _); simpl; [|done].
    by destruct (disk_full w1).
  - right. destruct (getCacheDir_Exit _ _ _ Hdir) as (_ & msg & ->).
    exists msg, code. eexists. by rewrite (saveToCache_Exit _ _ _ _ Hdir).
Qed.

(** X8. What a run of [ScrapeEvents] logs, in this order and nothing
    else: the line of [OnRequest] with the URL; one warning about an empty
    title for at most each container without a title in what was received
    of the page, and for exactly each of them when the page holds fewer
    titled events than the clamped cap; then, when the visit failed, the
    line of [OnError]; when the visit succeeded, nothing more, unless
    [getCacheDir] ends the process, which adds its fatal line. *)
Theorem fetch_logs_in_order `{json} (numEvents : Z) (w : World) :
  let p := match calendar w with Served p => p | Failed _ p => p end in
  let untitled := length (filter (fun e => extract e = None) (event_items p)) in
  exists k rest,
    logged (final (ScrapeEvents numEvents w))
    = logged w ++ LogVisiting calendarURL :: replicate k LogEmptyTitle ++ rest
    ∧ (k <= untitled)%nat
    ∧ (Z.of_nat (length (omap extract (event_items p))) < clampNumEvents numEvents ->
       k = untitled)
    ∧ match calendar w with
      | Served _ =>
          rest = []
          ∨ (exists msg code w',
               rest = [LogFatal msg] ∧ ScrapeEvents numEvents w = Exit code w')
      | Failed cause _ => rest = [LogErrorVisiting calendarURL (errVisit cause)]
      end.
Proof.
  destruct (calendar w) as [p|cause p] eqn:Hcal; simpl;
    destruct (traverse_warnings (clampNumEvents numEvents) (event_items p))
      as (Hall & Hle & Heq);
    apply Forall_eq_replicate in Hall;
    set (s := traverse (clampNumEvents numEvents) (event_items p)) in *;
    exists (length (warnings s)).
  - rewrite (ScrapeEvents_Served _ _ _ Hcal). fold s. simpl.
    destruct (saveToCache_logged (events s) (visited calendarURL (warnings s) w))
      as [Hsame|(msg & code & w' & Hexit & Hlog)].
    + exists []. split; [|split; [done|split; [done|by left]]].
      rewrite app_nil_r, <- Hall.
      destruct (saveToCache _ _) as [[?|] ?|]; simpl in *; by rewrite Hsame.
    + exists [LogFatal msg]. split; [|split; [done|split; [done|]]].
      * rewrite Hexit. simpl. rewrite Hlog. simpl.
        rewrite <- Hall, <- app_assoc. done.
      * right. exists msg, code, w'. split; [done|]. by rewrite Hexit.
  - rewrite (ScrapeEvents_Failed _ _ _ _ Hcal). fold s. simpl.
    exists [LogErrorVisiting calendarURL (errVisit cause)].
    split; [|done]. by rewrite <- Hall.
Qed.

(** ** The command-line variant *)

Lemma setCategory_twice c1 c2 e :
  Cli.setCategory c2 (Cli.setCategory c1 e) = Cli.setCategory c2 e.
Proof. reflexivity. Qed.

(** The loop over the links keeps the last label that is not spam. *)
Lemma foldl_onLink links e found out :
  let kept := filter (fun c => c ≠ "Free"%string ∧ c ≠ "free"%string) links in
  foldl Cli.onLink (e, found, out) links
  = (match last kept with Some c => Cli.setCategory c e | None => e end,
     found || bool_decide (kept ≠ []),
     out ++ ((fun c => OutText ("Event category: " +:+ c)) <$> kept)).
Proof.
  induction links as [|c links IH] using rev_ind; simpl.
  - by rewrite orb_false_r, app_nil_r.
  - rewrite foldl_app, filter_app. simpl. rewrite IH. clear IH.
    set (kept := filter _ links). unfold Cli.onLink at 1.
    rewrite filter_cons, filter_nil.
    destruct (String.eqb c "Free") eqn:H1; simpl.
    { apply String.eqb_eq in H1. rewrite decide_False by (intros [? _]; done).
      by rewrite !app_nil_r. }
    destruct (String.eqb c "free") eqn:H2; simpl.
    { apply String.eqb_eq in H2. rewrite decide_False by (intros [_ ?]; done).
      by rewrite !app_nil_r. }
    apply String.eqb_neq in H1, H2. rewrite decide_True by done.
    rewrite last_snoc, fmap_app, app_assoc. simpl.
    rewrite (bool_decide_true (kept ++ [c] ≠ [])) by (by destruct kept).
    rewrite orb_true_r. by destruct (last kept).
Qed.

(** X9. In [scraper.go] the category block gives an event the last of
    its link texts that is neither "Free" nor "free", not the first and not
    a joined list; a label in other cases, such as "FREE", counts as a
    category; with no such label the category is "Uncategorized".  No other
    entry of the map changes. *)
Theorem cli_category_is_last_label (numEvents : Z) (s : Cli.Scrape)
    (title : string) (links : list string) (e : Event) :
  Cli.eventCount s < numEvents ->
  Cli.eventsMap s !! title = Some e ->
  let kept := filter (fun c => c ≠ "Free"%string ∧ c ≠ "free"%string) links in
  Cli.eventsMap (Cli.onTypes numEvents s (title, links)) !! title
  = Some (Cli.setCategory (default "Uncategorized"%string (last kept)) e)
  ∧ (forall other, other ≠ title ->
       Cli.eventsMap (Cli.onTypes numEvents s (title, links)) !! other
       = Cli.eventsMap s !! other).
Proof.
  intros Hcount He kept. unfold Cli.onTypes. simpl.
  apply Z.leb_gt in Hcount. rewrite Hcount, He.
  rewrite foldl_onLink. fold kept. simpl.
  destruct kept as [|c kept'] eqn:Hk.
  - simpl. split; [apply lookup_insert_eq|].
    intros other Hne. by apply lookup_insert_ne.
  - rewrite (bool_decide_true (c :: kept' ≠ [])) by done. simpl.
    destruct (last (c :: kept')) as [c'|] eqn:Hlast.
    + split; [apply lookup_insert_eq|].
      intros other Hne. by apply lookup_insert_ne.
    + by apply last_None in Hlast.
Qed.

Lemma keyed_insert titles m title e :
  keyed titles m -> Title e = title -> keyed ({[ title ]} ∪ titles) (<[ title := e ]> m).
Proof.
  intros [Hdom Hkey] He. split.
  - by rewrite dom_insert_L, Hdom.
  - intros k e'. destruct (decide (title = k)) as [<-|Hne].
    + rewrite lookup_insert_eq. by intros [= <-].
    + rewrite lookup_insert_ne by done. apply Hkey.
Qed.

Lemma keyed_update titles m title e0 e :
  keyed titles m -> m !! title = Some e0 -> Title e = title ->
  keyed titles (<[ title := e ]> m).
Proof.
  intros Hk H0 He. destruct (keyed_insert _ _ _ _ Hk He) as [Hdom Hkey].
  split; [|done]. rewrite Hdom. destruct Hk as [<- _].
  apply elem_of_dom_2 in H0. set_solver.
Qed.

Lemma onName_keyed numEvents s title titles :
  Cli.eventCount s < numEvents ->
  keyed titles (Cli.eventsMap s) ->
  keyed ({[ title ]} ∪ titles) (Cli.eventsMap (Cli.onName numEvents s title))
  ∧ Cli.eventCount (Cli.onName numEvents s title) = Cli.eventCount s.
Proof.
  intros Hcount Hk. unfold Cli.onName. apply Z.leb_gt in Hcount. rewrite Hcount.
  simpl. split; [|done]. by apply keyed_insert.
Qed.

Lemma foldl_onName_keyed numEvents names s titles :
  Cli.eventCount s < numEvents ->
  keyed titles (Cli.eventsMap s) ->
  keyed (list_to_set names ∪ titles) (Cli.eventsMap (foldl (Cli.onName numEvents) s names))
  ∧ Cli.eventCount (foldl (Cli.onName numEvents) s names) = Cli.eventCount s.
Proof.
  revert s titles. induction names as [|title names IH]; intros s titles Hcount Hk; simpl.
  - split; [|done]. by replace (∅ ∪ titles) with titles by set_solver.
  - destruct (onName_keyed numEvents s title titles Hcount Hk) as [Hk1 Hc1].
    destruct (IH _ _ ltac:(by rewrite Hc1) Hk1) as [Hk2 Hc2].
    split; [|congruence].
    by replace ({[title]} ∪ list_to_set names ∪ titles)
      with (list_to_set names ∪ ({[title]} ∪ titles)) by set_solver.
Qed.

Lemma onField_keyed set label numEvents s el titles :
  (forall v e, Title (set v e) = Title e) ->
  keyed titles (Cli.eventsMap s) ->
  keyed titles (Cli.eventsMap (Cli.onField set label numEvents s el))
  ∧ Cli.eventCount (Cli.onField set label numEvents s el) = Cli.eventCount s.
Proof.
  intros Hset Hk. unfold Cli.onField. destruct (_ <=? _); [done|].
  destruct (Cli.eventsMap s !! el.1) as [e|] eqn:He; [|done]. simpl.
  split; [|done]. eapply keyed_update; [done..|].
  rewrite Hset. by apply Hk.
Qed.

Lemma onTypes_keyed numEvents s el titles :
  keyed titles (Cli.eventsMap s) ->
  keyed titles (Cli.eventsMap (Cli.onTypes numEvents s el))
  ∧ Cli.eventCount (Cli.onTypes numEvents s el) = Cli.eventCount s.
Proof.
  intros Hk. unfold Cli.onTypes. destruct (_ <=? _); [done|].
  destruct (Cli.eventsMap s !! el.1) as [e|] eqn:He; [|done].
  rewrite foldl_onLink. simpl.
  assert (Ht : Title e = el.1) by by apply Hk.
  destruct (bool_decide _); simpl; (split; [|done]); eapply keyed_update; try done;
    by destruct (last _).
Qed.

Lemma foldl_keyed {T} (g : Cli.Scrape -> T -> Cli.Scrape) titles (l : list T) s :
  (forall s0 x, keyed titles (Cli.eventsMap s0) ->
     keyed titles (Cli.eventsMap (g s0 x)) ∧ Cli.eventCount (g s0 x) = Cli.eventCount s0) ->
  keyed titles (Cli.eventsMap s) ->
  keyed titles (Cli.eventsMap (foldl g s l))
  ∧ Cli.eventCount (foldl g s l) = Cli.eventCount s.
Proof.
  intros Hg. revert s. induction l as [|x l IH]; intros s Hk; simpl; [done|].
  destruct (Hg s x Hk) as [Hk1 Hc1]. destruct (IH _ Hk1) as [Hk2 Hc2].
  split; [done|congruence].
Qed.

Lemma onHTML_keyed numEvents p :
  0 < numEvents ->
  keyed (list_to_set (msl_event_name p))
        (Cli.eventsMap (Cli.onHTML numEvents p Cli.newScrape)).
Proof.
  intros Hn. unfold Cli.onHTML.
  destruct (foldl_onName_keyed numEvents (msl_event_name p) Cli.newScrape ∅) as [Hk0 _];
    [done|by split|].
  replace (list_to_set (msl_event_name p) ∪ ∅) with
    (list_to_set (msl_event_name p) : gset string) in Hk0 by set_solver.
  set (titles := list_to_set (msl_event_name p) : gset string) in *.
  apply foldl_keyed; [intros; by apply onTypes_keyed|].
  apply foldl_keyed; [intros; by apply onField_keyed|].
  apply foldl_keyed; [intros; by apply onField_keyed|].
  apply foldl_keyed; [intros; by apply onField_keyed|].
  done.
Qed.

Lemma size_list_to_set_le (l : list string) :
  (size (list_to_set l : gset string) <= length l)%nat.
Proof.
  induction l as [|x l IH].
  - by rewrite list_to_set_nil, size_empty.
  - rewrite list_to_set_cons, size_union_alt, size_singleton.
    assert (size (list_to_set l ∖ {[x]} : gset string) <= size (list_to_set l : gset string))%nat.
    { apply subseteq_size. apply subseteq_difference_l. done. }
    simpl. lia.
Qed.

(** X10. In [scraper.go] the events are keyed by title: after the visit
    the map holds one entry for each distinct text of a title element, each
    entry carries that text as its title, so announcements with the same
    title are merged; the callbacks for date, description, location and
    category never add an entry. *)
Theorem cli_entries_are_the_titles (numEvents : Z) (p : Page) :
  0 < numEvents ->
  let m := Cli.eventsMap (Cli.onHTML numEvents p Cli.newScrape) in
  dom m = list_to_set (msl_event_name p)
  ∧ (forall title e, m !! title = Some e -> Title e = title)
  ∧ (size m <= length (msl_event_name p))%nat.
Proof.
  intros Hn m. destruct (onHTML_keyed numEvents p Hn) as [Hdom Hkey].
  split; [done|]. split; [done|].
  rewrite <- size_dom. fold m in Hdom. rewrite Hdom.
  apply size_list_to_set_le.
Qed.

Lemma foldl_collect_take numEvents entries s :
  Cli.eventCount s = Z.of_nat (length (Cli.events s)) ->
  Cli.events (foldl (Cli.collect numEvents) s entries)
  = Cli.events s ++ take (Z.to_nat numEvents - length (Cli.events s)) entries.*2.
Proof.
  revert s. induction entries as [|x l IH]; intros s Hs; simpl.
  - by rewrite take_nil, app_nil_r.
  - unfold Cli.collect at 2. destruct (numEvents <=? Cli.eventCount s) eqn:Hcap.
    + apply Z.leb_le in Hcap. rewrite IH by done.
      replace (Z.to_nat numEvents - length (Cli.events s))%nat with 0%nat by lia.
      by rewrite !take_0.
    + apply Z.leb_gt in Hcap. rewrite IH; simpl.
      * rewrite length_app, <- app_assoc. simpl.
        replace (Z.to_nat numEvents - length (Cli.events s))%nat
          with (S (Z.to_nat numEvents - (length (Cli.events s) + 1)))%nat by lia.
        done.
      * rewrite length_app. simpl. lia.
Qed.

(** X11. What the command-line fetch saves are the first [numEvents]
    entries in the order in which [range] visits the map.  When [range]
    visits every entry once, their number is the smaller of [numEvents] and
    the number of distinct titles, and each saved event is an entry of the
    map. *)
Theorem cli_saves_first_entries (range : gmap string Event -> list (string * Event))
    (numEvents : Z) (p : Page) :
  let s := Cli.onHTML numEvents p Cli.newScrape in
  range (Cli.eventsMap s) ≡ₚ map_to_list (Cli.eventsMap s) ->
  Cli.events (Cli.collectAll range numEvents s)
  = take (Z.to_nat numEvents) (range (Cli.eventsMap s)).*2
  ∧ length (Cli.events (Cli.collectAll range numEvents s))
    = (Z.to_nat numEvents `min` size (Cli.eventsMap s))%nat
  ∧ (forall e, e ∈ Cli.events (Cli.collectAll range numEvents s) ->
       exists title, Cli.eventsMap s !! title = Some e).
Proof.
  intros s Hperm. destruct (onHTML_count numEvents p Cli.newScrape) as [He Hc].
  fold s in He, Hc. simpl in He, Hc.
  assert (Hev : Cli.events (Cli.collectAll range numEvents s)
                = take (Z.to_nat numEvents) (range (Cli.eventsMap s)).*2).
  { unfold Cli.collectAll. rewrite foldl_collect_take by by rewrite He, Hc.
    rewrite He. simpl. by rewrite Nat.sub_0_r. }
  split; [done|]. rewrite Hev. split.
  - rewrite length_take, length_fmap, Hperm, length_map_to_list. done.
  - intros e He'. apply elem_of_take in He' as (i & He' & _).
    apply list_lookup_fmap_Some in He' as ([title e'] & -> & Hi).
    exists title. apply elem_of_map_to_list. rewrite <- Hperm.
    apply list_elem_of_lookup. by exists i.
Qed.

(** ** The runs of [main.go] *)

Lemma ShouldScrape_false `{json} w w1 :
  ShouldScrape w = Return false w1 ->
  exists dir data cachedData,
    getCacheDir w = Return dir w1
    ∧ files w !! filepath.Join dir "events.json" = Some data
    ∧ Unmarshal data = Some cachedData
    ∧ Sub (now w) (LastScraped cachedData) < 12 * Hour.
Proof.
  intros Hfresh.
  destruct (getCacheDir w) as [dir w0|code w0] eqn:Hdir.
  - rewrite (ShouldScrape_Return _ _ _ Hdir) in Hfresh.
    injection Hfresh as Hv <-. exists dir.
    destruct (files w !! _) as [data|]; [|done].
    destruct (Unmarshal data) as [cachedData|] eqn:Hd; [|done].
    exists data, cachedData. repeat split; try done.
    apply negb_false_iff in Hv. by apply Z.ltb_lt.
  - unfold ShouldScrape in Hfresh. run. by rewrite Hdir in Hfresh.
Qed.

(** X12. When [ShouldScrape] says that the cache is fresh, the run of
    [main] cannot fail: the cache file it then loads is the one that was
    just decoded, so [main] returns, having printed the six lines of every
    cached event and nothing else, without a request and without touching a
    file. *)
Theorem fresh_run_prints_the_cache `{json} (w w1 : World) :
  ShouldScrape w = Return false w1 ->
  exists dir data cachedData w',
    getCacheDir w = Return dir w1
    ∧ files w !! filepath.Join dir "events.json" = Some data
    ∧ Unmarshal data = Some cachedData
    ∧ main w = Return tt w'
    ∧ stdout w' = stdout w ++ List.concat (List.map printEvent (Events cachedData))
    ∧ files w' = files w
    ∧ requests w' = requests w.
Proof.
  intros Hfresh.
  destruct (ShouldScrape_false _ _ Hfresh) as (dir & data & cachedData & Hdir & Hfile & Hdec & _).
  destruct (getCacheDir_frame _ _ _ Hdir)
    as (_ & Hfiles & _ & _ & _ & Hreq & _ & _ & Hout & _).
  pose proof (LoadCachedEvents_Return _ _ _ (getCacheDir_again _ _ _ Hdir)) as Hload.
  rewrite Hfiles, Hfile, Hdec in Hload.
  exists dir, data, cachedData. eexists. split; [done|]. split; [done|]. split; [done|].
  split; [|split; [|split]].
  - unfold main. run. rewrite Hfresh, Hload. simpl. reflexivity.
  - simpl. by rewrite Hout.
  - done.
  - done.
Qed.

(** X13. A stale cache and a calendar that cannot be reached: [main]
    ends the process with status 1.  Nothing is printed, since the fetch
    hands back no events, and no file has changed, so the stale cache is
    still there for the next run. *)
Theorem stale_offline_run_exits `{json} (w w1 : World) (cause : string) (partial : Page) :
  ShouldScrape w = Return true w1 ->
  calendar w = Failed cause partial ->
  exists w',
    main w = Exit 1 w'
    ∧ stdout w' = stdout w
    ∧ files w' = files w
    ∧ last (logged w') = Some (LogFatal "failed to scrape events").
Proof.
  intros Hstale Hcal.
  pose proof (keeps_Return calendar _ _ _ _
                (keeps_ShouldScrape calendar (fun _ _ _ => eq_refl) (fun _ _ => eq_refl))
                Hstale) as Hcal1.
  pose proof (keeps_Return stdout _ _ _ _
                (keeps_ShouldScrape stdout (fun _ _ _ => eq_refl) (fun _ _ => eq_refl))
                Hstale) as Hout.
  pose proof (keeps_Return files _ _ _ _ keeps_files_ShouldScrape Hstale) as Hfiles.
  rewrite Hcal in Hcal1.
  eexists. split; [|split; [|split]].
  - unfold main. run. rewrite Hstale.
    rewrite (ScrapeEvents_Failed _ _ _ _ Hcal1). simpl. reflexivity.
  - simpl. by rewrite app_nil_r.
  - done.
  - simpl. by rewrite last_snoc.
Qed.

(** ** The command-line variant against [main.go] *)

(** The two [getCacheDir] differ in the text they log before they exit. *)
Lemma Cli_getCacheDir_agrees w :
  match Cli.getCacheDir w, getCacheDir w with
  | Return d1 w1, Return d2 w2 => d1 = d2 ∧ w1 = w2
  | Exit c1 w1, Exit c2 w2 =>
      c1 = 1 ∧ c2 = 1 ∧ files w1 = files w ∧ dirs w1 = dirs w
      ∧ files w2 = files w ∧ dirs w2 = dirs w ∧ stdout w1 = stdout w
  | _, _ => False
  end.
Proof.
  unfold Cli.getCacheDir, getCacheDir, UserCacheDir, StatIsNotExist, Mkdir, Fatalf. run.
  destruct (user_cache_dir w) as [root|]; simpl; [|done].
  destruct (_ && _); simpl; [|done].
  destruct (can_mkdir _ _); simpl; done.
Qed.

Lemma Cli_getCacheDir_Return w dir w1 :
  Cli.getCacheDir w = Return dir w1 <-> getCacheDir w = Return dir w1.
Proof.
  pose proof (Cli_getCacheDir_agrees w) as Hag.
  destruct (Cli.getCacheDir w) as [d1 v1|c1 v1], (getCacheDir w) as [d2 v2|c2 v2];
    try done.
  destruct Hag as [-> ->]. done.
Qed.

(** X14. The two variants agree on staleness: in every world
    [shouldScrape] of [scraper.go] returns exactly when [ShouldScrape] of
    [main.go] does, with the same verdict, and both leave the same files and
    directories.  (They differ in what they print and log.) *)
Theorem variants_agree_on_staleness `{json} (w : World) :
  returned (Cli.shouldScrape w) = returned (ShouldScrape w)
  ∧ files (final (Cli.shouldScrape w)) = files (final (ShouldScrape w))
  ∧ dirs (final (Cli.shouldScrape w)) = dirs (final (ShouldScrape w)).
Proof.
  pose proof (Cli_getCacheDir_agrees w) as Hag.
  unfold Cli.shouldScrape, ShouldScrape, Open, Since, Print. run.
  destruct (Cli.getCacheDir w) as [d1 v1|c1 v1], (getCacheDir w) as [d2 v2|c2 v2];
    try done; simpl.
  - destruct Hag as [-> ->].
    destruct (files v2 !! _) as [data|]; simpl.
    + destruct (Unmarshal data) as [cachedData|]; simpl; [|done].
      by destruct (_ <? _).
    + by destruct (bool_decide _).
  - destruct Hag as (_ & _ & -> & -> & -> & -> & _). done.
Qed.

(** X15. Loading the cache in the two variants: where [LoadCachedEvents]
    of [main.go] returns events, [loadCachedEvents] of [scraper.go] prints
    exactly these events; where the former returns an error or exits, the
    latter ends the process with status 1. *)
Theorem cli_load_follows_the_library `{json} (w : World) :
  match LoadCachedEvents w with
  | Return (evs, None) _ =>
      exists w', Cli.loadCachedEvents w = Return tt w'
                 ∧ stdout w' = stdout w ++ [OutEvents "Loaded cached events:" evs]
  | Return (_, Some _) _ | Exit _ _ =>
      exists w', Cli.loadCachedEvents w = Exit 1 w' ∧ stdout w' = stdout w
  end.
Proof.
  pose proof (Cli_getCacheDir_agrees w) as Hag.
  unfold Cli.loadCachedEvents, LoadCachedEvents, Open, Println, Print, Fatalf. run.
  destruct (Cli.getCacheDir w) as [d1 v1|c1 v1] eqn:Hcli,
           (getCacheDir w) as [d2 v2|c2 v2] eqn:Hdir; try done; simpl.
  - destruct Hag as [-> ->].
    destruct (getCacheDir_frame _ _ _ Hdir) as (_ & _ & _ & _ & _ & _ & _ & _ & Hout & _).
    destruct (files v2 !! _) as [data|]; simpl.
    + destruct (Unmarshal data) as [cachedData|]; simpl.
      * eexists. split; [done|]. simpl. by rewrite Hout.
      * eexists. split; [done|]. done.
    + destruct (bool_decide _); simpl; eexists; (split; [done|]); done.
  - destruct Hag as (-> & _ & _ & _ & _ & _ & Hout). by eexists.
Qed.

(** ** The fetch of the command-line variant *)

(** [getCacheDir] looks at the file system only. *)
Lemma Cli_getCacheDir_same_fs w v :
  user_cache_dir v = user_cache_dir w -> dirs v = dirs w ->
  files v = files w -> read_only v = read_only w ->
  match Cli.getCacheDir w with
  | Return d w1 => Cli.getCacheDir v = Return d (with_fs (dirs w1) (files w1) v)
  | Exit c _ => exists v1, Cli.getCacheDir v = Exit c v1 ∧ files v1 = files v
  end.
Proof.
  intros Hroot Hdirs Hfiles Hro.
  assert (Hex : forall p, exists_at v p = exists_at w p)
    by (intros; unfold exists_at; by rewrite Hdirs, Hfiles).
  assert (Hbl : forall p, blocked_by_file v p = blocked_by_file w p)
    by (intros; unfold blocked_by_file; by rewrite Hfiles).
  assert (Hmk : forall p, can_mkdir v p = can_mkdir w p)
    by (intros; unfold can_mkdir; by rewrite Hex, Hdirs, Hro).
  unfold Cli.getCacheDir, UserCacheDir, StatIsNotExist, Mkdir, Fatalf. run.
  rewrite Hroot. destruct (user_cache_dir w) as [root|]; simpl; [|by eexists].
  rewrite Hex, Hbl. destruct (_ && _); simpl.
  - rewrite Hmk. destruct (can_mkdir w _); simpl; [|by eexists].
    by rewrite Hdirs, Hfiles.
  - destruct v; simpl in *; by subst.
Qed.

Lemma can_create_same_fs v w p :
  dirs v = dirs w -> files v = files w -> read_only v = read_only w ->
  can_create v p = can_create w p.
Proof. intros Hd Hf Hr. unfold can_create. by rewrite Hd, Hf, Hr. Qed.

(** What the command-line fetch does to the files when the calendar
    answers. *)
Lemma scrapeEvents_Served `{json} range numEvents w p dir w1 :
  calendar w = Served p ->
  getCacheDir w = Return dir w1 ->
  let evs := Cli.events (Cli.collectAll range numEvents (Cli.onHTML numEvents p Cli.newScrape)) in
  let cache := filepath.Join dir "events.json" in
  match Cli.scrapeEvents range numEvents w with
  | Return _ w' =>
      can_create w1 cache = true ∧ disk_full w = false
      ∧ user_cache_dir w' = user_cache_dir w ∧ dirs w' = dirs w1
      ∧ exists data, Marshal {| LastScraped := now w; Events := evs |} = Some data
                     ∧ files w' = <[ cache := data ]> (files w)
  | Exit code w' =>
      code = 1
      ∧ ((can_create w1 cache = false ∧ files w' = files w)
         ∨ (can_create w1 cache = true
            ∧ (Marshal {| LastScraped := now w; Events := evs |} = None ∨ disk_full w = true)
            ∧ files w' = <[ cache := ""%string ]> (files w)))
  end.
Proof.
  intros Hcal Hdir evs cache.
  apply Cli_getCacheDir_Return in Hdir as Hcli.
  destruct (getCacheDir_frame _ _ _ Hdir) as (Hroot & Hfiles & Hro & Hfull & _).
  unfold Cli.scrapeEvents. rewrite Hcal.
  unfold Cli.onScraped, Now, Print. run. simpl.
  match goal with |- context [Cli.getCacheDir ?v] =>
    pose proof (Cli_getCacheDir_same_fs w v eq_refl eq_refl eq_refl eq_refl) as Hv end.
  rewrite Hcli in Hv. rewrite Hv. clear Hv. simpl.
  unfold Create. fold cache. rewrite (can_create_same_fs _ w1 cache) by done.
  destruct (can_create w1 cache); simpl.
  - unfold Encode, Write. run. fold evs.
    destruct (Marshal _) as [data|]; simpl.
    + destruct (disk_full w); simpl.
      * split; [done|]. right. rewrite Hfiles. split; [done|]. split; [by right|done].
      * rewrite insert_insert_eq, Hfiles. repeat split; try done. by exists data.
    + split; [done|]. right. rewrite Hfiles. split; [done|]. split; [by left|done].
  - split; [done|]. left. by rewrite Hfiles.
Qed.

(** X16. The command-line fetch cannot report a failed save: with the
    calendar served and the cache directory in place, it returns exactly
    when the cache file can be created, the events can be encoded and the
    data written; otherwise the process ends with status 1, and then the
    files are as before or the cache file has been left empty. *)
Theorem cli_fetch_exits_when_it_cannot_save `{json}
    (range : gmap string Event -> list (string * Event)) (numEvents : Z)
    (w : World) (p : Page) (dir : path) (w1 : World) :
  calendar w = Served p ->
  getCacheDir w = Return dir w1 ->
  let evs := Cli.events (Cli.collectAll range numEvents (Cli.onHTML numEvents p Cli.newScrape)) in
  let cache := filepath.Join dir "events.json" in
  ((exists w', Cli.scrapeEvents range numEvents w = Return tt w')
   <-> can_create w1 cache = true
       ∧ is_Some (Marshal {| LastScraped := now w; Events := evs |})
       ∧ disk_full w = false)
  ∧ (forall code w',
       Cli.scrapeEvents range numEvents w = Exit code w' ->
       code = 1
       ∧ (files w' = files w ∨ files w' = <[ cache := ""%string ]> (files w))).
Proof.
  intros Hcal Hdir evs cache.
  pose proof (scrapeEvents_Served range numEvents w p dir w1 Hcal Hdir) as Hrun.
  fold evs cache in Hrun.
  destruct (Cli.scrapeEvents range numEvents w) as [[] w'|code w'].
  - destruct Hrun as (Hc & Hfull & _ & _ & data & Hm & _).
    split; [|done]. split; [|by eexists].
    intros _. by rewrite Hm.
  - split.
    + split; [by intros [? ?]|]. intros (Hc & [data Hm] & Hfull).
      destruct Hrun as (_ & [[Hno _]|(_ & [Hnone|Hf] & _)]); congruence.
    + intros ? ? [= <- <-]. destruct Hrun as (-> & [[_ ->]|(_ & _ & ->)]); auto.
Qed.

(** X17. The command-line variant reads back what it has saved: after a
    fetch that returned, [loadCachedEvents] returns as well and prints
    exactly the events the fetch collected. *)
Theorem cli_load_after_fetch `{json_faithful}
    (range : gmap string Event -> list (string * Event)) (numEvents : Z)
    (w : World) (p : Page) (w' : World) :
  calendar w = Served p ->
  Cli.scrapeEvents range numEvents w = Return tt w' ->
  let evs := Cli.events (Cli.collectAll range numEvents (Cli.onHTML numEvents p Cli.newScrape)) in
  exists w'',
    Cli.loadCachedEvents w' = Return tt w''
    ∧ stdout w'' = stdout w' ++ [OutEvents "Loaded cached events:" evs]
    ∧ files w'' = files w'.
Proof.
  intros Hcal Hrun evs.
  destruct (getCacheDir w) as [dir w1|code w1] eqn:Hdir.
  - pose proof (scrapeEvents_Served range numEvents w p dir w1 Hcal Hdir) as Hs.
    rewrite Hrun in Hs. fold evs in Hs.
    destruct Hs as (Hcan & _ & Hroot & Hdirs & data & Hm & Hfiles).
    destruct (proj1 (getCacheDir_Return _ _ _) Hdir) as (root & Hr & -> & _).
    assert (Hin : filepath.Join root "rhs-scraper" ∈ dirs w1).
    { unfold can_create in Hcan. rewrite Dir_Join in Hcan.
      apply andb_true_iff in Hcan as [Hcan _]. apply andb_true_iff in Hcan as [_ Hcan].
      by apply bool_decide_eq_true in Hcan. }
    assert (Hcli : Cli.getCacheDir w' = Return (filepath.Join root "rhs-scraper") w').
    { apply Cli_getCacheDir_Return, getCacheDir_present; [congruence|].
      unfold exists_at. rewrite Hdirs. by rewrite bool_decide_true. }
    destruct (unmarshal_marshal _ _ Hm) as [t Hback]. simpl in Hback.
    unfold Cli.loadCachedEvents, Open, Print. run. rewrite Hcli. simpl.
    rewrite Hfiles, lookup_insert_eq. simpl. rewrite Hback. simpl.
    eexists. split; [done|]. split; [done|]. simpl. by rewrite Hfiles.
  - exfalso. apply (f_equal returned) in Hrun. simpl in Hrun.
    pose proof (Cli_getCacheDir_agrees w) as Hag. rewrite Hdir in Hag.
    destruct (Cli.getCacheDir w) as [d0 v0|c0 v0] eqn:Hcli; [done|].
    unfold Cli.scrapeEvents in Hrun. rewrite Hcal in Hrun.
    unfold Cli.onScraped, Now, Print in Hrun. run. simpl in Hrun.
    match type of Hrun with context [Cli.getCacheDir ?v] =>
      pose proof (Cli_getCacheDir_same_fs w v eq_refl eq_refl eq_refl eq_refl) as Hv end.
    rewrite Hcli in Hv. destruct Hv as (v1 & Hv & _). by rewrite Hv in Hrun.
Qed.

(** X18. The command-line variant does not notice a failed visit: with
    the force flag set and the calendar out of reach, [main] returns as
    after a success.  Nothing is logged, no line of input is read, and the
    files and directories are as before. *)
Theorem cli_offline_run_reports_nothing `{json}
    (range : gmap string Event -> list (string * Event)) (numEvents : Z)
    (w : World) (cause : string) (partial : Page) :
  calendar w = Failed cause partial ->
  exists w',
    Cli.main range true numEvents w = Return tt w'
    ∧ files w' = files w ∧ dirs w' = dirs w
    ∧ logged w' = logged w ∧ stdin w' = stdin w
    ∧ requests w' = requests w ++ [calendarURL].
Proof.
  intros Hcal. unfold Cli.main, Cli.scrapeEvents, Print. run. simpl. rewrite Hcal.
  eexists. split; [done|]. by repeat split.
Qed.

(** ** The run of [main.go] that fetches *)


(** ** The terminal UI *)

Lemma Update_states `{json} msg m w m' cmd w' :
  tui.Update msg m w = Return (m', cmd) w' ->
  tui.state m' = tui.state m
  ∨ tui.state m' ∈ [tui.stateMenu; tui.stateScraping; tui.stateViewing;
                    tui.stateOptions; tui.stateLoadingCache].
Proof.
  unfold tui.Update, Print. run.
  destruct msg as [evs|err|key|text|]; simpl.
  - intros [= <- _ _]. right. simpl. set_solver.
  - intros [= <- _ _]. right. simpl. set_solver.
  - destruct (_ || _); [by intros [= <- _ _]; left|].
    destruct (String.eqb key "q"); [intros [= <- _ _]; right; simpl; set_solver|].
    destruct (String.eqb key "1").
    { destruct (ShouldScrape w) as [[|] w1|]; simpl; [| |done];
        intros [= <- _ _]; right; simpl; set_solver. }
    destruct (String.eqb key "2"); [intros [= <- _ _]; right; simpl; set_solver|].
    destruct (String.eqb key "3"); [intros [= <- _ _]; right; simpl; set_solver|].
    destruct (String.eqb key "4"); intros [= <- _ _]; by left.
  - destruct (_ || _); intros [= <- _ _]; [right; simpl; set_solver|by left].
  - intros [= <- _ _]. by left.
Qed.

Lemma reachable_states `{json} m :
  tui.reachable m ->
  tui.state m ∈ [tui.stateMenu; tui.stateScraping; tui.stateViewing;
                 tui.stateOptions; tui.stateLoadingCache].
Proof.
  induction 1 as [|m msg w m' cmd w' _ IH Hup]; [set_solver|].
  destruct (Update_states _ _ _ _ _ _ Hup) as [->|Hin]; done.
Qed.

(** X20. The error kept in the model is never shown.  Every model the
    program can reach is in one of the five states menu, scraping, viewing,
    options and loading (the state for a forced scrape is never entered),
    and in each of them [View] renders the same text whatever the stored
    error is.  A scrape error in particular leads to the plain main menu,
    with the events of before still in the model. *)
Theorem tui_error_is_never_shown `{json} (m : tui.model) :
  tui.reachable m ->
  tui.state m ∈ [tui.stateMenu; tui.stateScraping; tui.stateViewing;
                 tui.stateOptions; tui.stateLoadingCache]
  ∧ (forall err,
       tui.View {| tui.state := tui.state m; tui.events := tui.events m;
                   tui.scrapeError := err |} = tui.View m)
  ∧ (forall Err w,
       exists m', tui.Update (tui.ScrapeErrorMsg Err) m w = Return (m', None) w
                  ∧ tui.scrapeError m' = Some Err
                  ∧ tui.events m' = tui.events m
                  ∧ tui.View m' = mret tui.viewMainMenu).
Proof.
  intros Hreach. pose proof (reachable_states m Hreach) as Hstate.
  split; [done|]. split.
  - intros err. unfold tui.View. simpl.
    repeat (apply elem_of_cons in Hstate as [->|Hstate]; [reflexivity|]).
    by apply elem_of_nil in Hstate.
  - intros Err w. by eexists.
Qed.

Ltac not_the_key_1 H :=
  split; [done|]; split; [done|]; split; [by intros (? & ? & ?)|];
  intros [[= ->] _]; vm_compute in H; discriminate H.

(** X21. [Update] works offline and on no file: whatever the message, it
    makes no request and changes no file.  The one thing that can end the
    process inside [Update] is the key 1, whose freshness check exits when
    the cache directory cannot be had. *)
Theorem tui_update_is_offline `{json} (msg : tui.Msg) (m : tui.model) (w : World) :
  requests (final (tui.Update msg m w)) = requests w
  ∧ files (final (tui.Update msg m w)) = files w
  ∧ ((exists code w', tui.Update msg m w = Exit code w')
     <-> msg = tui.KeyMsg "1" ∧ exists code w', getCacheDir w = Exit code w').
Proof.
  pose proof (keeps_ShouldScrape requests (fun _ _ _ => eq_refl) (fun _ _ => eq_refl) w) as Hreq.
  pose proof (keeps_files_ShouldScrape w) as Hfiles.
  assert (Hexit : (exists code w', ShouldScrape w = Exit code w')
                  <-> exists code w', getCacheDir w = Exit code w').
  { destruct (getCacheDir w) as [dir w1|code w1] eqn:Hdir.
    - rewrite (ShouldScrape_Return _ _ _ Hdir). split; by intros (? & ? & ?).
    - unfold ShouldScrape. run. rewrite Hdir. split; intros _; by eexists _, _. }
  unfold tui.Update, Print. run.
  destruct msg as [evs|err|key|text|]; simpl;
    try (split; [done|]; split; [done|]; split; [by intros (? & ? & ?)|by intros [? _]]).
  - destruct (_ || _) eqn:Hctrl; [by not_the_key_1 Hctrl|].
    destruct (String.eqb key "q") eqn:Hq; [by not_the_key_1 Hq|].
    destruct (String.eqb key "1") eqn:H1.
    { apply String.eqb_eq in H1 as ->.
      destruct (ShouldScrape w) as [[|] w1|code w1]; simpl in *;
        (split; [done|]; split; [done|]); rewrite <- Hexit.
      - split; [by intros (? & ? & ?)|]. by intros [_ (? & ? & ?)].
      - split; [by intros (? & ? & ?)|]. by intros [_ (? & ? & ?)].
      - split; [|by eexists _, _]. intros _. split; [done|]. by eexists _, _. }
    destruct (String.eqb key "2"); [by not_the_key_1 H1|].
    destruct (String.eqb key "3"); [by not_the_key_1 H1|].
    destruct (String.eqb key "4"); by not_the_key_1 H1.
  - destruct (_ || _); (split; [done|]; split; [done|]);
      (split; [by intros (? & ? & ?)|by intros [? _]]).
Qed.

(** X22. A command followed by [Update] on its message.  When the fetch
    returns events, the model shows exactly these events and holds no
    error; when it returns an error, the model is back at the menu with the
    events it had before and the error stored. *)
Theorem tui_fetch_then_update `{json} (numEvents : Z) (m : tui.model) (w : World)
    (evs : list Event) (err : option error) (w1 : World) :
  ScrapeEvents numEvents w = Return (evs, err) w1 ->
  exists m' w2,
    (msg ← tui.scrapeEventsCmd numEvents; tui.Update msg m) w = Return (m', None) w2
    ∧ m' = match err with
           | None => {| tui.state := tui.stateViewing; tui.events := evs;
                        tui.scrapeError := None |}
           | Some e => {| tui.state := tui.stateMenu; tui.events := tui.events m;
                          tui.scrapeError := Some e |}
           end
    ∧ files w2 = files w1 ∧ requests w2 = requests w1.
Proof.
  intros Hfetch. unfold tui.scrapeEventsCmd, tui.Update, Print. run.
  rewrite Hfetch. destruct err as [e|]; simpl; by eexists _, _.
Qed.

(** X23. Rendering is not free of effects.  [View] always returns, makes
    no request and changes no file, but each time it renders a non-empty
    list of events it prints one more line on standard output; in every
    other case it prints nothing. *)
Theorem tui_view_prints_when_it_lists (m : tui.model) (w : World) :
  exists text w',
    tui.View m w = Return text w'
    ∧ files w' = files w ∧ requests w' = requests w
    ∧ stdout w' =
      if decide (tui.state m = tui.stateViewing ∧ tui.events m ≠ [])
      then stdout w ++ [OutText ("scraped " +:+ pretty (length (tui.events m)) +:+ " events")]
      else stdout w.
Proof.
  unfold tui.View.
  destruct (String.eqb (tui.state m) tui.stateMenu) eqn:E1.
  { apply String.eqb_eq in E1. eexists _, _. split; [done|]. repeat split.
    rewrite decide_False; [done|]. rewrite E1. by intros [[=] _]. }
  destruct (String.eqb (tui.state m) tui.stateScraping) eqn:E2.
  { apply String.eqb_eq in E2. eexists _, _. split; [done|]. repeat split.
    rewrite decide_False; [done|]. rewrite E2. by intros [[=] _]. }
  destruct (String.eqb (tui.state m) tui.stateLoadingCache) eqn:E3.
  { apply String.eqb_eq in E3. eexists _, _. split; [done|]. repeat split.
    rewrite decide_False; [done|]. rewrite E3. by intros [[=] _]. }
  destruct (String.eqb (tui.state m) tui.stateViewing) eqn:E4.
  { apply String.eqb_eq in E4. unfold tui.viewEvents, Print. run.
    destruct (tui.events m) as [|e l] eqn:Hev; simpl.
    - eexists _, _. split; [done|]. repeat split.
      rewrite decide_False; [done|]. by intros [_ ?].
    - eexists _, _. split; [done|]. repeat split.
      rewrite decide_True; [done|]. by split. }
  apply String.eqb_neq in E4.
  destruct (String.eqb (tui.state m) tui.stateOptions).
  { eexists _, _. split; [done|]. repeat split.
    rewrite decide_False; [done|]. by intros [? _]. }
  destruct (tui.scrapeError m); eexists _, _; (split; [done|]); repeat split;
    (rewrite decide_False; [done|]; by intros [? _]).
Qed.

(** ** More sample runs *)

#[global] Instance jsonref_lossless : @json_lossless jsonref.codec.
Proof. exact unmarshal_marshal_ref. Qed.


Lemma fresh_after_fetch_witness :
  exists w',
    ScrapeEvents 2 sample.first_run = Return ([sample.quizEvent; sample.marketEvent], None) w'
    ∧ returned (ShouldScrape (with_now (sample.noon + Hour) w')) = Some false
    ∧ returned (ShouldScrape (with_now (sample.noon + 12 * Hour) w')) = Some true.
Proof.
  destruct (returned_Some (ScrapeEvents 2 sample.first_run)
              ([sample.quizEvent; sample.marketEvent], None)) as [w' Hret]; [reflexivity|].
  exists w'. split; [exact Hret|]. split.
  - destruct (fresh_after_fetch 2 sample.first_run _ w' (sample.noon + Hour) Hret)
      as (_ & Hfresh & _).
    apply Hfresh. reflexivity.
  - destruct (fresh_after_fetch 2 sample.first_run _ w' (sample.noon + 12 * Hour) Hret)
      as (_ & _ & Hstale).
    apply Hstale. apply Z.leb_le. reflexivity.
Defined.

Lemma saveToCache_only_cache_file_witness :
  files (final (saveToCache [sample.quizEvent] sample2.with_notes)) !! sample2.notes
  = Some "keep"%string
  ∧ sample.root ∈ dirs (final (saveToCache [sample.quizEvent] sample2.with_notes)).
Proof.
  destruct (saveToCache_only_cache_file (H:=jsonref.codec) [sample.quizEvent]
              sample2.with_notes sample2.notes) as (Hfile & _ & _).
  destruct (saveToCache_only_cache_file (H:=jsonref.codec) [sample.quizEvent]
              sample2.with_notes sample.root) as (_ & Hdir & _).
  split.
  - rewrite Hfile; [reflexivity|].
    intros root Hroot Heq. injection Hroot as <-.
    apply (f_equal length) in Heq. discriminate Heq.
  - apply Hdir.
    + intros root Hroot Heq. injection Hroot as <-.
      apply (f_equal length) in Heq. discriminate Heq.
    + apply (bool_decide_unpack (sample.root ∈ dirs sample2.with_notes)). exact I.
Defined.

Lemma failed_save_and_the_old_cache_witness :
  let w := sample.world [sample.root; sample.app] [(sample.cache, sample.saved sample.noon)]
             [] true (Served sample.page) [] in
  exists err w',
    saveToCache [sample.filmEvent] w = Return (Some err) w'
    ∧ files w' !! sample.cache = Some ""%string.
Proof.
  intros w.
  destruct (failed_save_and_the_old_cache (H:=jsonref.codec) [sample.filmEvent] w
              sample.app w eq_refl) as [_ Hwrite].
  apply Hwrite; [reflexivity|]. right. reflexivity.
Defined.

Lemma spam_link_is_invisible_witness :
  categoryOf (["Music"%string] ++ " FREE "%string :: ["Social"%string])
  = categoryOf (["Music"%string] ++ ["Social"%string]).
Proof.
  apply spam_link_is_invisible. right. reflexivity.
Defined.

Lemma abort_exactly_past_the_cap_witness :
  aborted (traverse 2 (event_items sample.page)) = true
  ∧ aborted (traverse 3 (event_items sample.page)) ≠ true.
Proof.
  split.
  - apply (abort_exactly_past_the_cap 2 (event_items sample.page)); [discriminate|].
    split; [discriminate|]. apply Z.leb_le. reflexivity.
  - intros Hab.
    apply (abort_exactly_past_the_cap 3 (event_items sample.page)) in Hab as [_ Hle];
      [|discriminate].
    apply Z.leb_le in Hle. discriminate Hle.
Defined.

Lemma cli_category_is_last_label_witness :
  let s := Cli.onName 10 Cli.newScrape "Quiz Night" in
  Cli.eventsMap (Cli.onTypes 10 s ("Quiz Night"%string, sample2.labels)) !! "Quiz Night"%string
  = Some (Cli.setCategory "FREE" (Cli.setTitle "Quiz Night" Cli.zeroEvent)).
Proof.
  intros s.
  destruct (cli_category_is_last_label 10 s "Quiz Night" sample2.labels
              (Cli.setTitle "Quiz Night" Cli.zeroEvent)) as [Hcat _];
    [reflexivity..|exact Hcat].
Defined.

Lemma cli_entries_are_the_titles_witness :
  (size (Cli.eventsMap (Cli.onHTML 10 sample2.doubled Cli.newScrape))
   <= length (msl_event_name sample2.doubled))%nat.
Proof.
  exact (proj2 (proj2 (cli_entries_are_the_titles 10 sample2.doubled eq_refl))).
Defined.

Lemma cli_saves_first_entries_witness :
  length (Cli.events (Cli.collectAll sample.range 2
                        (Cli.onHTML 2 sample.page Cli.newScrape)))
  = (Z.to_nat 2 `min` size (Cli.eventsMap (Cli.onHTML 2 sample.page Cli.newScrape)))%nat.
Proof.
  destruct (cli_saves_first_entries sample.range 2 sample.page) as (_ & Hlen & _);
    [apply Permutation_refl|exact Hlen].
Defined.

Lemma fresh_run_prints_the_cache_witness :
  exists w',
    main (sample.cached (sample.noon - Hour) []) = Return tt w'
    ∧ requests w' = requests (sample.cached (sample.noon - Hour) []).
Proof.
  destruct (returned_Some (ShouldScrape (sample.cached (sample.noon - Hour) [])) false)
    as [w1 Hfresh]; [reflexivity|].
  destruct (fresh_run_prints_the_cache _ _ Hfresh)
    as (_ & _ & _ & w' & _ & _ & _ & Hmain & _ & _ & Hreq).
  exists w'. split; [exact Hmain|exact Hreq].
Defined.

Lemma stale_offline_run_exits_witness :
  exists w',
    main sample.offline = Exit 1 w'
    ∧ files w' = files sample.offline.
Proof.
  destruct (returned_Some (ShouldScrape sample.offline) true) as [w1 Hstale]; [reflexivity|].
  destruct (stale_offline_run_exits _ _ "connection refused" sample.page Hstale eq_refl)
    as (w' & Hmain & _ & Hfiles & _).
  exists w'. split; [exact Hmain|exact Hfiles].
Defined.

Lemma cli_fetch_exits_when_it_cannot_save_witness :
  ¬ exists w', Cli.scrapeEvents sample.range 10 sample.full_disk = Return tt w'.
Proof.
  destruct (cli_fetch_exits_when_it_cannot_save (H:=jsonref.codec) sample.range 10
              sample.full_disk sample.page sample.app sample.full_disk eq_refl eq_refl)
    as [Hiff _].
  intros Hret. apply Hiff in Hret as (_ & _ & Hfull). discriminate Hfull.
Defined.

Lemma cli_load_after_fetch_witness :
  exists w' w'',
    Cli.scrapeEvents sample.range 2 sample.first_run = Return tt w'
    ∧ Cli.loadCachedEvents w' = Return tt w''.
Proof.
  destruct (returned_Some (Cli.scrapeEvents sample.range 2 sample.first_run) tt)
    as [w' Hrun]; [reflexivity|].
  destruct (cli_load_after_fetch sample.range 2 sample.first_run sample.page w' eq_refl Hrun)
    as (w'' & Hload & _).
  exists w', w''. split; [exact Hrun|exact Hload].
Defined.

Lemma cli_offline_run_reports_nothing_witness :
  exists w',
    Cli.main sample.range true 10 sample.offline = Return tt w'
    ∧ files w' = files sample.offline ∧ logged w' = logged sample.offline.
Proof.
  destruct (cli_offline_run_reports_nothing (H:=jsonref.codec) sample.range 10
              sample.offline "connection refused" sample.page eq_refl)
    as (w' & Hmain & Hfiles & _ & Hlog & _).
  exists w'. split; [exact Hmain|]. split; [exact Hfiles|exact Hlog].
Defined.


Lemma tui_error_is_never_shown_witness :
  exists m',
    tui.reachable (H:=jsonref.codec) m'
    ∧ tui.scrapeError m' = Some errJSON
    ∧ tui.View m' = tui.View tui.InitialModel.
Proof.
  exists {| tui.state := tui.stateMenu; tui.events := []; tui.scrapeError := Some errJSON |}.
  assert (Hreach : tui.reachable (H:=jsonref.codec)
            {| tui.state := tui.stateMenu; tui.events := [];
               tui.scrapeError := Some errJSON |}).
  { apply (tui.reachable_update tui.InitialModel (tui.ScrapeErrorMsg errJSON)
             sample.no_home _ None sample.no_home); [apply tui.reachable_initial|reflexivity]. }
  split; [exact Hreach|]. split; [reflexivity|].
  destruct (tui_error_is_never_shown _ Hreach) as (_ & Hview & _).
  symmetry. exact (Hview None).
Defined.

Lemma tui_fetch_then_update_witness :
  exists m' w2,
    (msg ← tui.scrapeEventsCmd 10; tui.Update msg tui.InitialModel) sample.offline
    = Return (m', None) w2
    ∧ tui.state m' = tui.stateMenu
    ∧ tui.scrapeError m'
      = Some (Errorf "failed to visit events page" (errVisit "connection refused")).
Proof.
  destruct (returned_Some (ScrapeEvents 10 sample.offline)
              ([], Some (Errorf "failed to visit events page" (errVisit "connection refused"))))
    as [w1 Hfetch]; [reflexivity|].
  destruct (tui_fetch_then_update 10 tui.InitialModel sample.offline _ _ w1 Hfetch)
    as (m' & w2 & Hrun & -> & _).
  eexists _, w2. split; [exact Hrun|]. split; reflexivity.
Defined.
